(** * DigitalOcean REST session: a shallow embedding of [src/index.ts]

    The development models [RestApiSession] (the transport [request], the
    session operations built on it and the droplet-creation retry loop)
    together with the name sanitiser [makeValidDropletName], and the
    [ValueStream] class of [src/unnamed/part_000] with its watchers.

    Conventions.
    - A JavaScript string is the sequence of the UTF-8 bytes of its text
      ([string] of the Standard Library), a lone surrogate being written
      as the three bytes of its code point.  Every operation the program
      applies to strings ([replace] with an ASCII character class,
      [toLowerCase] followed by a search for an ASCII word, [encodeURI])
      acts on such a sequence byte by byte; [encodeURI] throws on a lone
      surrogate, and its model is for the other strings ([loneSurrogate]).
    - A JavaScript number is an integer ([Z]), printed in decimal; the
      program only compares and prints HTTP status codes and forwards
      identifiers.  The model of printing is for the integers a number
      holds exactly ([safeInteger]).
    - A JavaScript object is the list of its own properties; the first
      binding of a key is the one that counts.
    - A promise is represented by the way it ends: [Fulfilled], [Rejected]
      or [Pending] (neither callback is ever invoked).
    - The HTTP library (axios) is outside the repository: it is a
      variable [axios] giving, for the n-th call and its arguments, either
      a response or a thrown exception.  The library as the program calls
      it (version 0.27 of [package.json], no [validateStatus] given) is
      [axiosDefault]: it hands over the answers of status 200..299 and
      throws on every other answer and when there is none.
    - Console output is part of the history; [effects] is the history
      without it. *)

From Stdlib Require Import String Ascii List ZArith Bool Lia NArith.
From Stdlib Require Import DecimalString.
Import ListNotations.

Local Open Scope string_scope.
Local Open Scope Z_scope.

(** ** JavaScript values *)

#[local] Set Warnings "-register-all".

Inductive JsValue : Type :=
| JUndefined
| JNull
| JBool (b : bool)
| JNum (n : Z)
| JStr (s : string)
| JArr (items : list JsValue)
| JObj (fields : list (string * JsValue)).

(** Errors that travel through rejected promises and [catch] clauses. *)
Inductive JsError : Type :=
| XhrError                       (* new XhrError(): OutlineError without message *)
| Error (message : string)       (* new Error(message) *)
| TypeError (message : string)   (* property read on undefined or null *)
| AxiosError (message : string). (* raised by the HTTP library *)

(** Modelled from the spec: [errors.OutlineError] of [../infra/errors], the
    base class of [XhrError], is not among the sources.  The specification
    has this error carry no message; [XhrError] calls [super()] without
    argument, so its [message] is the empty text of such an error. *)
Definition message (e : JsError) : string :=
  match e with
  | XhrError => ""
  | Error m => m
  | TypeError m => m
  | AxiosError m => m
  end.

(** Truthiness, as tested by [cond ? a : b]. *)
Definition truthy (v : JsValue) : bool :=
  match v with
  | JUndefined | JNull => false
  | JBool b => b
  | JNum n => negb (n =? 0)
  | JStr s => negb (String.eqb s "")
  | JArr _ | JObj _ => true
  end.

Fixpoint lookup (key : string) (fields : list (string * JsValue)) : option JsValue :=
  match fields with
  | [] => None
  | (k, v) :: rest => if String.eqb k key then Some v else lookup key rest
  end.

(** [v.key] for the own properties of parsed JSON: reading from
    [undefined] or [null] throws, a missing property is [undefined]. *)
Definition getProp (v : JsValue) (key : string) : JsError + JsValue :=
  match v with
  | JUndefined =>
      inl (TypeError ("Cannot read properties of undefined (reading '" ++ key ++ "')"))
  | JNull =>
      inl (TypeError ("Cannot read properties of null (reading '" ++ key ++ "')"))
  | JObj fields =>
      inr (match lookup key fields with Some x => x | None => JUndefined end)
  | _ => inr JUndefined
  end.

(** Number-to-string conversion on the integers that a JavaScript number
    holds exactly and prints in full, those of absolute value at most
    2^53 - 1 ([safeInteger] below). *)
Definition decimal (n : Z) : string := NilZero.string_of_int (Z.to_int n).

(** String conversion performed by a template literal.  An object of
    parsed JSON prints as "[object Object]" through
    [Object.prototype.toString], unless it has an own [toString] member:
    that member is not callable, [valueOf] gives back the object, and the
    conversion throws.  An array joins the conversions of its elements. *)
Fixpoint toStr (v : JsValue) : JsError + string :=
  match v with
  | JUndefined => inr "undefined"
  | JNull => inr "null"
  | JBool true => inr "true"
  | JBool false => inr "false"
  | JNum n => inr (decimal n)
  | JStr s => inr s
  | JArr items =>
      (fix join (l : list JsValue) : JsError + string :=
         match l with
         | [] => inr ""
         | x :: rest =>
             match (match x with JUndefined | JNull => inr "" | _ => toStr x end) with
             | inl e => inl e
             | inr first =>
                 match rest with
                 | [] => inr first
                 | _ :: _ =>
                     match join rest with
                     | inl e => inl e
                     | inr others => inr (first ++ "," ++ others)
                     end
                 end
             end
         end) items
  | JObj fields =>
      match lookup "toString" fields with
      | Some _ => inl (TypeError "Cannot convert object to primitive value")
      | None => inr "[object Object]"
      end
  end.

(** ** String primitives used by the program *)

Definition code (c : ascii) : N := N_of_ascii c.

Definition between (lo hi c : ascii) : bool :=
  (code lo <=? code c)%N && (code c <=? code hi)%N.

(** [String.prototype.toLowerCase] on the ASCII letters. *)
Definition lowerChar (c : ascii) : ascii :=
  if between "A" "Z" c then ascii_of_N (code c + 32) else c.

Fixpoint toLowerCase (s : string) : string :=
  match s with
  | EmptyString => EmptyString
  | String c rest => String (lowerChar c) (toLowerCase rest)
  end.

(** [s.indexOf(needle)]: first position of [needle], or -1. *)
Fixpoint indexOfFrom (pos : Z) (needle s : string) : Z :=
  if String.prefix needle s then pos
  else match s with
       | EmptyString => -1
       | String _ rest => indexOfFrom (pos + 1) needle rest
       end.

Definition indexOf (s needle : string) : Z := indexOfFrom 0 needle s.

(** *** Regular-expression character classes and global replacement *)

Inductive ClassItem : Type :=
| Range (lo hi : ascii)
| Single (c : ascii).

Record CharClass : Type := { negated : bool; items : list ClassItem }.

Definition itemMatches (c : ascii) (i : ClassItem) : bool :=
  match i with
  | Range lo hi => between lo hi c
  | Single d => Ascii.eqb c d
  end.

Definition classMatches (cls : CharClass) (c : ascii) : bool :=
  xorb (negated cls) (existsb (itemMatches c) (items cls)).

(** [s.replace(/cls/g, replacement)] for a one-character pattern. *)
Fixpoint replaceAll (cls : CharClass) (replacement s : string) : string :=
  match s with
  | EmptyString => EmptyString
  | String c rest =>
      if classMatches cls c
      then replacement ++ replaceAll cls replacement rest
      else String c (replaceAll cls replacement rest)
  end.

(** The class [[^A-Za-z0-9-]] of the source. *)
Definition invalidNameChar : CharClass :=
  {| negated := true;
     items := [Range "A" "Z"; Range "a" "z"; Range "0" "9"; Single "-"] |}.

Definition makeValidDropletName (name : string) : string :=
  replaceAll invalidNameChar "" name.

(** *** [encodeURI] (ECMAScript: reserved and unescaped characters and [#]
    are kept, every other byte of the UTF-8 text becomes [%XX]). *)

Definition uriKept : string :=
  ";/?:@&=+$,-_.!~*'()#".

Fixpoint occurs (c : ascii) (s : string) : bool :=
  match s with
  | EmptyString => false
  | String d rest => Ascii.eqb c d || occurs c rest
  end.

Definition uriUnescaped (c : ascii) : bool :=
  between "A" "Z" c || between "a" "z" c || between "0" "9" c || occurs c uriKept.

Definition hexDigit (n : N) : ascii :=
  if (n <? 10)%N then ascii_of_N (48 + n) else ascii_of_N (55 + n).

Definition percentEncode (c : ascii) : string :=
  String "%" (String (hexDigit (code c / 16)) (String (hexDigit (code c mod 16)) EmptyString)).

Fixpoint encodeURI (s : string) : string :=
  match s with
  | EmptyString => EmptyString
  | String c rest =>
      if uriUnescaped c then String c (encodeURI rest)
      else percentEncode c ++ encodeURI rest
  end.

(** ** Effects: the HTTP library, the console and timers *)

Record HttpCall : Type := {
  method : string;
  url : string;
  headers : list (string * string);
  data : option JsValue
}.

(** What [await axios({...})] produces. *)
Inductive AxiosResult : Type :=
| AxiosResponse (status : Z) (body : JsValue)
| AxiosThrows (e : JsError).

(** What the network gives for a call: an HTTP response, with its body as
    the library decodes it, or no response at all. *)
Inductive ServerAnswer : Type :=
| Answer (status : Z) (body : JsValue)
| NoAnswer (reason : string).

(** The library as the program uses it: axios 0.27 (pinned in
    [package.json]) called without [validateStatus] (lines 218-226), whose
    default accepts [status >= 200 && status < 300] and throws an
    [AxiosError] for any other status, as it does when there is no
    response. *)
Definition axiosDefault (server : nat -> HttpCall -> ServerAnswer)
  : nat -> HttpCall -> AxiosResult :=
  fun n call =>
    match server n call with
    | Answer status body =>
        if (200 <=? status) && (status <? 300)
        then AxiosResponse status body
        else AxiosThrows (AxiosError ("Request failed with status code " ++ decimal status))
    | NoAnswer reason => AxiosThrows (AxiosError reason)
    end.

Inductive ConsoleLevel : Type := Info | Log | Err.

Inductive LogArg : Type :=
| LText (s : string)
| LValue (v : JsValue)
| LException (e : JsError).

Inductive Event : Type :=
| EvHttp (c : HttpCall)
| EvSetTimeout (ms : Z)
| EvConsole (level : ConsoleLevel) (args : list LogArg).

(** The observable history: how many HTTP calls were issued so far and
    everything that happened, oldest first. *)
Record World : Type := { issued : nat; trace : list Event }.

Definition emit (ev : list Event) (w : World) : World :=
  {| issued := issued w; trace := (trace w ++ ev)%list |}.

(** How a promise ends. *)
Inductive Promise (A : Type) : Type :=
| Fulfilled (a : A)
| Rejected (e : JsError)
| Pending.

Arguments Fulfilled {A} a.
Arguments Rejected {A} e.
Arguments Pending {A}.

(** An asynchronous operation: from the history to the end of its promise
    and the extended history. *)
Definition Async (A : Type) : Type := World -> Promise A * World.

(** Synchronous code that logs and may throw (the body of a [try]). *)
Definition Exec (A : Type) : Type := list Event * (JsError + A).

Definition ret {A : Type} (a : A) : Exec A := ([], inr a).

Definition bind {A B : Type} (m : Exec A) (k : A -> Exec B) : Exec B :=
  match m with
  | (ev, inl e) => (ev, inl e)
  | (ev, inr a) => let (ev', r) := k a in ((ev ++ ev')%list, r)
  end.

Declare Scope exec_scope.
Delimit Scope exec_scope with exec.
Notation "x <- m ;; k" := (bind m (fun x => k))
  (at level 61, m at next level, right associativity) : exec_scope.
Notation "m ;; k" := (bind m (fun _ => k))
  (at level 61, right associativity) : exec_scope.

Definition console (level : ConsoleLevel) (args : list LogArg) : Exec unit :=
  ([EvConsole level args], inr tt).

Definition lift {A : Type} (r : JsError + A) : Exec A := ([], r).

(** [promise.then(f)] for a callback that returns a plain value or throws. *)
Definition andThen {A B : Type} (p : Async A) (f : A -> JsError + B) : Async B :=
  fun w =>
    match p w with
    | (Fulfilled a, w1) =>
        (match f a with inr b => Fulfilled b | inl e => Rejected e end, w1)
    | (Rejected e, w1) => (Rejected e, w1)
    | (Pending, w1) => (Pending, w1)
    end.

(** ** The session *)

Record RestApiSession : Type := { accessToken : string }.

Record DigitalOceanDropletSpecification : Type := {
  installCommand : string;
  size : string;
  image : string;
  tags : list string
}.

Definition MAX_REQUESTS : Z := 10.
Definition RETRY_TIMEOUT_MS : Z := 5000.

(** [e.message.toLowerCase().indexOf('finalizing') >= 0] *)
Definition mentionsFinalizing (e : JsError) : bool :=
  0 <=? indexOf (toLowerCase (message e)) "finalizing".

Section Session.

(** The HTTP library: the result of the n-th call, given its arguments. *)
Variable axios : nat -> HttpCall -> AxiosResult.

Variable session : RestApiSession.

(** The [try] block of [request], after the call was issued. *)
Definition requestTry (result : AxiosResult) : Exec (Promise JsValue) :=
  (response <- lift (match result with
                     | AxiosResponse status body => inr (status, body)
                     | AxiosThrows e => inl e
                     end) ;;
   let status := fst response in
   let body := snd response in
   if (200 <=? status) && (status <=? 299) then
     console Log [LValue body] ;;
     let responseObj := if truthy body then body else JObj [] in
     ret (Fulfilled responseObj)
   else if status =? 401 then
     console Err [LText "DigitalOcean request failed with Unauthorized error"] ;;
     ret (Rejected XhrError)
   else
     let responseJson := body in
     console Err [LText ("DigitalOcean request failed with status " ++ decimal status)] ;;
     id <- lift (getProp responseJson "id") ;;
     idText <- lift (toStr id) ;;
     msg <- lift (getProp responseJson "message") ;;
     msgText <- lift (toStr msg) ;;
     ret (Rejected (Error ("XHR " ++ idText ++ " failed with " ++ decimal status
                             ++ ": " ++ msgText))))%exec.

(** [try { ... } catch (e) { console.log(e) }]: the exception is logged
    and neither [resolve] nor [reject] is called. *)
Definition requestExecutor (result : AxiosResult) : list Event * Promise JsValue :=
  match requestTry result with
  | (ev, inr settled) => (ev, settled)
  | (ev, inl e) => ((ev ++ [EvConsole Log [LException e]])%list, Pending)
  end.

Definition requestCall (method actionPath : string) (data : option JsValue) : HttpCall :=
  {| method := method;
     url := "https://api.digitalocean.com/v2/" ++ actionPath;
     headers := [("Authorization", "Bearer " ++ accessToken session);
                 ("Content-Type", "application/json")];
     data := data |}.

Definition request (method actionPath : string) (data : option JsValue) : Async JsValue :=
  fun w =>
    let call := requestCall method actionPath data in
    let (ev, settled) := requestExecutor (axios (issued w) call) in
    (settled, {| issued := S (issued w); trace := (trace w ++ EvHttp call :: ev)%list |}).

Definition info (text : string) : World -> World :=
  emit [EvConsole Info [LText text]].

Definition getAccount : Async JsValue :=
  fun w =>
    andThen (request "GET" "account" None)
            (fun response => getProp response "account")
            (info "Requesting account" w).

Definition createDropletData (dropletName region : string) (keyId : JsValue)
           (dropletSpec : DigitalOceanDropletSpecification) : JsValue :=
  JObj [("name", JStr dropletName);
        ("region", JStr region);
        ("size", JStr (size dropletSpec));
        ("image", JStr (image dropletSpec));
        ("ssh_keys", JArr [keyId]);
        ("user_data", JStr (installCommand dropletSpec));
        ("tags", JArr (map JStr (tags dropletSpec)));
        ("ipv6", JBool true)].

(** [makeRequestRecursive]: [fuel] bounds the number of iterations the
    model may unfold; [None] means the bound was too small. *)
Fixpoint makeRequestRecursive (fuel : nat) (dropletName region : string) (keyId : JsValue)
         (dropletSpec : DigitalOceanDropletSpecification) (requestCount : Z) (w : World)
  : option (Promise JsValue * World) :=
  match fuel with
  | O => None
  | S fuel' =>
      let requestCount := requestCount + 1 in
      let w0 := info ("Requesting droplet creation " ++ decimal requestCount ++ "/"
                        ++ decimal MAX_REQUESTS) w in
      match request "POST" "droplets"
                    (Some (createDropletData dropletName region keyId dropletSpec)) w0 with
      | (Fulfilled v, w1) => Some (Fulfilled v, w1)
      | (Rejected e, w1) =>
          if mentionsFinalizing e && (requestCount <? MAX_REQUESTS) then
            makeRequestRecursive fuel' dropletName region keyId dropletSpec requestCount
                                 (emit [EvSetTimeout RETRY_TIMEOUT_MS] w1)
          else Some (Rejected e, w1)
      | (Pending, w1) => Some (Pending, w1)
      end
  end.

Definition makeCreateDropletRequest (dropletName region : string) (keyId : JsValue)
           (dropletSpec : DigitalOceanDropletSpecification) (w : World)
  : option (Promise JsValue * World) :=
  makeRequestRecursive (Z.to_nat MAX_REQUESTS) dropletName region keyId dropletSpec 0 w.

Definition deleteDroplet (dropletId : Z) : Async JsValue :=
  fun w =>
    request "DELETE" ("droplets/" ++ decimal dropletId) None
            (info "Requesting droplet deletion" w).

Definition getRegionInfo : Async JsValue :=
  fun w =>
    andThen (request "GET" "regions" None)
            (fun response => getProp response "regions")
            (info "Requesting region info" w).

Definition registerKey_ (keyName publicKeyForSSH : string) : Async JsValue :=
  fun w =>
    andThen (request "POST" "account/keys"
                     (Some (JObj [("name", JStr keyName);
                                  ("public_key", JStr publicKeyForSSH)])))
            (fun response =>
               match getProp response "ssh_key" with
               | inr ssh_key => getProp ssh_key "id"
               | inl e => inl e
               end)
            (info "Requesting key registration" w).

Definition createDroplet (displayName region publicKeyForSSH : string)
           (dropletSpec : DigitalOceanDropletSpecification) (w : World)
  : option (Promise JsValue * World) :=
  let dropletName := makeValidDropletName displayName in
  let w0 := emit [EvConsole Log [LText "PUBLICK KEY"; LText publicKeyForSSH]] w in
  match registerKey_ dropletName publicKeyForSSH w0 with
  | (Fulfilled keyId, w1) =>
      makeCreateDropletRequest dropletName region keyId dropletSpec w1
  | (Rejected e, w1) => Some (Rejected e, w1)
  | (Pending, w1) => Some (Pending, w1)
  end.

Definition getDroplet (dropletId : Z) : Async JsValue :=
  fun w =>
    andThen (request "GET" ("droplets/" ++ decimal dropletId) None)
            (fun response => getProp response "droplet")
            (info "Requesting droplet" w).

Definition getDropletTags (dropletId : Z) : Async JsValue :=
  andThen (getDroplet dropletId) (fun droplet => getProp droplet "tags").

Definition getDropletsByTag (tag : string) : Async JsValue :=
  fun w =>
    andThen (request "GET" ("droplets?tag_name=" ++ encodeURI tag) None)
            (fun response => getProp response "droplets")
            (info "Requesting droplet by tag" w).

Definition getDroplets : Async JsValue :=
  fun w =>
    andThen (request "GET" "droplets" None)
            (fun response => getProp response "droplets")
            (info "Requesting droplets" w).

End Session.

(** ** Views of a history *)

Definition isEffect (ev : Event) : bool :=
  match ev with
  | EvConsole _ _ => false
  | _ => true
  end.

Definition isHttp (ev : Event) : bool :=
  match ev with
  | EvHttp _ => true
  | _ => false
  end.

(** The history without console output: HTTP calls and timers, in order. *)
Definition effects (t : list Event) : list Event := filter isEffect t.

Definition newWorld : World := {| issued := 0; trace := [] |}.

(** ** The vocabulary of the specification *)

(** The characters [[A-Za-z0-9-]], written out. *)
Definition nameAlphabet : string :=
  "ABCDEFGHIJKLMNOPQRSTUVWXYZabcdefghijklmnopqrstuvwxyz0123456789-".

Definition allowedNameChar (c : ascii) : bool := occurs c nameAlphabet.

(** What the specification asks of sanitisation: keep the allowed
    characters, in their order, and nothing else. *)
Definition keepAllowed (s : string) : string :=
  string_of_list_ascii (filter allowedNameChar (list_ascii_of_string s)).

(** [x] occurs in [s] as a contiguous piece. *)
Definition Substring (x s : string) : Prop :=
  exists before after, s = before ++ x ++ after.

(** How the call [call], issued as the n-th one, ends. *)
Definition attempt (axios : nat -> HttpCall -> AxiosResult) (n : nat) (call : HttpCall)
  : Promise JsValue :=
  snd (requestExecutor (axios n call)).

(** A body that carries nothing: absent, [null] or the empty text. *)
Definition emptyBody (body : JsValue) : bool :=
  match body with
  | JUndefined | JNull => true
  | JStr s => String.eqb s ""
  | _ => false
  end.

(** The [name] member of the object a call sends, when it is a text. *)
Definition sentName (c : HttpCall) : option string :=
  match data c with
  | Some (JObj fields) =>
      match lookup "name" fields with
      | Some (JStr n) => Some n
      | _ => None
      end
  | _ => None
  end.

(** The two calls of droplet creation. *)
Definition keyCall (session : RestApiSession) (keyName publicKeyForSSH : string) : HttpCall :=
  requestCall session "POST" "account/keys"
              (Some (JObj [("name", JStr keyName); ("public_key", JStr publicKeyForSSH)])).

Definition createCall (session : RestApiSession) (dropletName region : string)
           (keyId : JsValue) (dropletSpec : DigitalOceanDropletSpecification) : HttpCall :=
  requestCall session "POST" "droplets"
              (Some (createDropletData dropletName region keyId dropletSpec)).

(** The world after one creation request issued from [w], the counter
    having been [requestCount] before it. *)
Definition afterCreateRequest (axios : nat -> HttpCall -> AxiosResult)
           (session : RestApiSession) (dropletName region : string) (keyId : JsValue)
           (dropletSpec : DigitalOceanDropletSpecification) (requestCount : Z) (w : World)
  : World :=
  snd (request axios session "POST" "droplets"
               (Some (createDropletData dropletName region keyId dropletSpec))
               (info ("Requesting droplet creation " ++ decimal (requestCount + 1) ++ "/"
                        ++ decimal MAX_REQUESTS) w)).

(** What [k] retried creation requests leave in the history. *)
Definition retries (call : HttpCall) (k : nat) : list Event :=
  concat (repeat [EvHttp call; EvSetTimeout RETRY_TIMEOUT_MS] k).

(** [s] contains [word] written in any mix of upper and lower case. *)
Definition containsIgnoringCase (word s : string) : Prop :=
  exists before x after, s = before ++ x ++ after /\ toLowerCase x = word.

(** The call, issued as the n-th one, fails with a "finalizing" message. *)
Definition failsFinalizing (axios : nat -> HttpCall -> AxiosResult) (n : nat)
           (call : HttpCall) : Prop :=
  exists e, attempt axios n call = Rejected e /\
            containsIgnoringCase "finalizing" (message e).

(** The loop does not retry after a request that ended as [p], the
    counter having been [requestCount] before it. *)
Definition stops (requestCount : Z) (p : Promise JsValue) : Prop :=
  match p with
  | Rejected e => mentionsFinalizing e = false \/ MAX_REQUESTS <= requestCount + 1
  | _ => True
  end.

(** A network that plays a script, one answer per call. *)
Definition served (script : list ServerAnswer) (otherwise : ServerAnswer)
  : nat -> HttpCall -> ServerAnswer :=
  fun n _ => nth n script otherwise.

(** The library of the program in front of such a network. *)
Definition scripted (script : list ServerAnswer) (otherwise : ServerAnswer)
  : nat -> HttpCall -> AxiosResult :=
  axiosDefault (served script otherwise).

(** The library of the program when no host can be reached. *)
Definition unreachable : nat -> HttpCall -> AxiosResult :=
  axiosDefault (fun _ _ => NoAnswer "getaddrinfo ENOTFOUND api.digitalocean.com").

(** The library of the program when every call gets the same response. *)
Definition answering (status : Z) (body : JsValue) : nat -> HttpCall -> AxiosResult :=
  axiosDefault (fun _ _ => Answer status body).

Definition demoSession : RestApiSession := {| accessToken := "token" |}.

Definition demoSpec : DigitalOceanDropletSpecification :=
  {| installCommand := "#!/bin/bash"; size := "s-1vcpu-1gb";
     image := "docker-18-04"; tags := ["orbitez"] |}.

Definition keyRegistered : ServerAnswer :=
  Answer 201 (JObj [("ssh_key", JObj [("id", JNum 42)])]).

Definition stillFinalizing : ServerAnswer :=
  Answer 422 (JObj [("id", JStr "unprocessable_entity");
                    ("message", JStr "We are still Finalizing your account")]).

Definition limitReached : ServerAnswer :=
  Answer 422 (JObj [("id", JStr "unprocessable_entity");
                    ("message", JStr "droplet limit exceeded")]).

Definition unauthorized : ServerAnswer :=
  Answer 401 (JObj [("id", JStr "unauthorized");
                    ("message", JStr "Unable to authenticate you")]).

Definition notFound : ServerAnswer :=
  Answer 404 (JObj [("id", JStr "not_found"); ("message", JStr "droplet not found")]).

Definition dropletCreated : ServerAnswer :=
  Answer 202 (JObj [("droplet", JObj [("id", JNum 7)])]).

(** The two calls of a droplet creation for the display name
    "My Node! #1" in region "nyc3", with the key registered as 42, written
    out as they go to the library. *)
Definition demoKeyCall : HttpCall :=
  {| method := "POST";
     url := "https://api.digitalocean.com/v2/account/keys";
     headers := [("Authorization", "Bearer token"); ("Content-Type", "application/json")];
     data := Some (JObj [("name", JStr "MyNode1"); ("public_key", JStr "ssh-rsa AAAA")]) |}.

Definition demoCreateCall : HttpCall :=
  {| method := "POST";
     url := "https://api.digitalocean.com/v2/droplets";
     headers := [("Authorization", "Bearer token"); ("Content-Type", "application/json")];
     data := Some (JObj [("name", JStr "MyNode1");
                         ("region", JStr "nyc3");
                         ("size", JStr "s-1vcpu-1gb");
                         ("image", JStr "docker-18-04");
                         ("ssh_keys", JArr [JNum 42]);
                         ("user_data", JStr "#!/bin/bash");
                         ("tags", JArr [JStr "orbitez"]);
                         ("ipv6", JBool true)]) |}.


(** ** The session interface *)

(** The operations of [DigitalOceanSession] that issue a single request. *)
Inductive Operation : Type :=
| GetAccount
| DeleteDroplet (dropletId : Z)
| GetRegionInfo
| GetDroplet (dropletId : Z)
| GetDropletTags (dropletId : Z)
| GetDropletsByTag (tag : string)
| GetDroplets.

Definition perform (axios : nat -> HttpCall -> AxiosResult) (session : RestApiSession)
           (op : Operation) : Async JsValue :=
  match op with
  | GetAccount => getAccount axios session
  | DeleteDroplet dropletId => deleteDroplet axios session dropletId
  | GetRegionInfo => getRegionInfo axios session
  | GetDroplet dropletId => getDroplet axios session dropletId
  | GetDropletTags dropletId => getDropletTags axios session dropletId
  | GetDropletsByTag tag => getDropletsByTag axios session tag
  | GetDroplets => getDroplets axios session
  end.

(** What is expected on the wire for each operation. *)
Definition wireMethod (op : Operation) : string :=
  match op with
  | DeleteDroplet _ => "DELETE"
  | _ => "GET"
  end.

Definition wireUrl (op : Operation) : string :=
  match op with
  | GetAccount => "https://api.digitalocean.com/v2/account"
  | DeleteDroplet dropletId => "https://api.digitalocean.com/v2/droplets/" ++ decimal dropletId
  | GetRegionInfo => "https://api.digitalocean.com/v2/regions"
  | GetDroplet dropletId => "https://api.digitalocean.com/v2/droplets/" ++ decimal dropletId
  | GetDropletTags dropletId => "https://api.digitalocean.com/v2/droplets/" ++ decimal dropletId
  | GetDropletsByTag tag =>
      "https://api.digitalocean.com/v2/droplets?tag_name=" ++ encodeURI tag
  | GetDroplets => "https://api.digitalocean.com/v2/droplets"
  end.

Definition wireCall (session : RestApiSession) (op : Operation) : HttpCall :=
  {| method := wireMethod op;
     url := wireUrl op;
     headers := [("Authorization", "Bearer " ++ accessToken session);
                 ("Content-Type", "application/json")];
     data := None |}.

(** The member of the response an operation hands to its caller; the
    operations outside this table do not project one member. *)
Definition projected (op : Operation) : option string :=
  match op with
  | GetAccount => Some "account"
  | GetRegionInfo => Some "regions"
  | GetDroplet _ => Some "droplet"
  | GetDropletsByTag _ => Some "droplets"
  | GetDroplets => Some "droplets"
  | DeleteDroplet _ => None
  | GetDropletTags _ => None
  end.

Definition nullish (v : JsValue) : bool :=
  match v with
  | JUndefined | JNull => true
  | _ => false
  end.

(** [v.key] when the read does not throw. *)
Definition member (key : string) (v : JsValue) : JsValue :=
  match getProp v key with
  | inr x => x
  | inl _ => JUndefined
  end.

(** The error text built from a failure response, when the reads and
    conversions of line 242 do not throw. *)
Definition failureText (status : Z) (body : JsValue) : JsError + string :=
  match getProp body "id" with
  | inl e => inl e
  | inr id =>
      match toStr id with
      | inl e => inl e
      | inr idText =>
          match getProp body "message" with
          | inl e => inl e
          | inr msg =>
              match toStr msg with
              | inl e => inl e
              | inr msgText =>
                  inr ("XHR " ++ idText ++ " failed with " ++ decimal status ++ ": "
                              ++ msgText)
              end
          end
      end
  end.

Definition isTimer (ev : Event) : bool :=
  match ev with
  | EvSetTimeout _ => true
  | _ => false
  end.



(** The chain of [.then(x => x.key)] an operation applies to its request. *)
Definition reads (op : Operation) : list string :=
  match op with
  | GetAccount => ["account"]
  | DeleteDroplet _ => []
  | GetRegionInfo => ["regions"]
  | GetDroplet _ => ["droplet"]
  | GetDropletTags _ => ["droplet"; "tags"]
  | GetDropletsByTag _ => ["droplets"]
  | GetDroplets => ["droplets"]
  end.

Fixpoint thenRead (keys : list string) (p : Promise JsValue) : Promise JsValue :=
  match keys with
  | [] => p
  | key :: rest =>
      thenRead rest
               match p with
               | Fulfilled v =>
                   match getProp v key with
                   | inr x => Fulfilled x
                   | inl e => Rejected e
                   end
               | Rejected e => Rejected e
               | Pending => Pending
               end
  end.

(** *** The inputs on which printing and escaping follow JavaScript *)

Definition MAX_SAFE_INTEGER : Z := 9007199254740991.

(** An integer that a JavaScript number holds exactly; it is below 10^21,
    so it prints in full. *)
Definition safeInteger (n : Z) : bool := Z.abs n <=? MAX_SAFE_INTEGER.

(** A lone surrogate in the generalised UTF-8 of a JavaScript string: the
    byte ED followed by a byte of A0..BF.  [encodeURI] throws [URIError]
    on such a string; the model of [encodeURI] is for the others. *)
Fixpoint loneSurrogate (s : string) : bool :=
  match s with
  | EmptyString => false
  | String c rest =>
      match rest with
      | String d _ =>
          Ascii.eqb c (ascii_of_N 237) && between (ascii_of_N 160) (ascii_of_N 191) d
      | EmptyString => false
      end || loneSurrogate rest
  end.

(** The operations whose arguments are such inputs. *)
Definition expressible (op : Operation) : bool :=
  match op with
  | DeleteDroplet dropletId => safeInteger dropletId
  | GetDroplet dropletId => safeInteger dropletId
  | GetDropletTags dropletId => safeInteger dropletId
  | GetDropletsByTag tag => negb (loneSurrogate tag)
  | _ => true
  end.




(** The two requests of a droplet creation, written out. *)
Definition wireKeyCall (session : RestApiSession) (name publicKey : string) : HttpCall :=
  {| method := "POST";
     url := "https://api.digitalocean.com/v2/account/keys";
     headers := [("Authorization", "Bearer " ++ accessToken session);
                 ("Content-Type", "application/json")];
     data := Some (JObj [("name", JStr name); ("public_key", JStr publicKey)]) |}.

Definition wireCreateCall (session : RestApiSession) (name region : string)
           (keyId : JsValue) (installCommand size image : string) (tags : list string)
  : HttpCall :=
  {| method := "POST";
     url := "https://api.digitalocean.com/v2/droplets";
     headers := [("Authorization", "Bearer " ++ accessToken session);
                 ("Content-Type", "application/json")];
     data := Some (JObj [("name", JStr name);
                         ("region", JStr region);
                         ("size", JStr size);
                         ("image", JStr image);
                         ("ssh_keys", JArr [keyId]);
                         ("user_data", JStr installCommand);
                         ("tags", JArr (map JStr tags));
                         ("ipv6", JBool true)]) |}.

(** ** The value stream of [src/unnamed/part_000]

    A promise created by [nextChange] is a position in [promises]: it is
    pending ([None]) or resolved with the "closed" flag.  The [resolve]
    callback pushed on [wakers] is named by the position of its promise.
    The asynchronous generator [watch] is a state machine of its
    suspension points, driven by [next] (a call by the consumer, who
    awaits each result before asking again) and by [resume] (the
    continuation of [await nextChange], once that promise is resolved);
    [seen] collects what it has yielded. *)

Module ValueStream.

Record Stream (T : Type) : Type := {
  value : T;
  wakers : option (list nat);   (* [None] is the [null] of a closed stream *)
  promises : list (option bool)
}.

Arguments value {T} s.
Arguments wakers {T} s.
Arguments promises {T} s.

(** [new ValueStream(value)] *)
Definition create {T : Type} (v : T) : Stream T :=
  {| value := v; wakers := Some []; promises := [] |}.

Definition get {T : Type} (s : Stream T) : T := value s.

Definition isClosed {T : Type} (s : Stream T) : bool :=
  match wakers s with
  | None => true
  | Some _ => false
  end.

(** Calling the [resolve] function of promise [p]: a promise already
    resolved keeps its value. *)
Fixpoint resolve (p : nat) (flag : bool) (ps : list (option bool)) {struct ps}
  : list (option bool) :=
  match ps with
  | [] => []
  | x :: rest =>
      match p with
      | O => (match x with None => Some flag | Some _ => x end) :: rest
      | S p' => x :: resolve p' flag rest
      end
  end.

(** [wakers.forEach((waker) => waker(flag))] *)
Definition wakeAll (ws : list nat) (flag : bool) (ps : list (option bool))
  : list (option bool) :=
  fold_left (fun acc p => resolve p flag acc) ws ps.

Definition set {T : Type} (newValue : T) (s : Stream T) : JsError + Stream T :=
  match wakers s with
  | None => inl (Error "Cannot change a closed value stream")
  | Some ws =>
      inr {| value := newValue;
             wakers := Some [];
             promises := wakeAll ws false (promises s) |}
  end.

Definition close {T : Type} (s : Stream T) : Stream T :=
  match wakers s with
  | None => s
  | Some finalWakers =>
      {| value := value s;
         wakers := None;
         promises := wakeAll finalWakers true (promises s) |}
  end.

(** [nextChange]: the new promise and the stream after the call. *)
Definition nextChange {T : Type} (s : Stream T) : nat * Stream T :=
  let p := length (promises s) in
  match wakers s with
  | None =>
      (p, {| value := value s; wakers := None;
             promises := (promises s ++ [Some true])%list |})
  | Some ws =>
      (p, {| value := value s; wakers := Some (ws ++ [p])%list;
             promises := (promises s ++ [None])%list |})
  end.

(** Where a generator made by [watch] is suspended. *)
Inductive Generator : Type :=
| Start
| AtYield (nextChange : nat)    (* at [yield this.value] inside the loop *)
| Awaiting (nextChange : nat)   (* at [closed = await nextChange] *)
| AtFinalYield                  (* at [yield this.value] after the loop *)
| Done.

Record Watcher (T : Type) : Type := { position : Generator; seen : list T }.

Arguments position {T} w.
Arguments seen {T} w.

(** [watch()]: a generator that has not started. *)
Definition watch {T : Type} : Watcher T := {| position := Start; seen := [] |}.

(** [const nextChange = this.nextChange(); yield this.value;] *)
Definition loopYield {T : Type} (s : Stream T) (w : Watcher T) : Stream T * Watcher T :=
  let (p, s') := nextChange s in
  (s', {| position := AtYield p; seen := (seen w ++ [value s'])%list |}).

(** [next()] on a suspended generator; a generator that is awaiting has
    not answered the previous call yet. *)
Definition next {T : Type} (s : Stream T) (w : Watcher T) : option (Stream T * Watcher T) :=
  match position w with
  | Start => Some (loopYield s w)
  | AtYield p => Some (s, {| position := Awaiting p; seen := seen w |})
  | Awaiting _ => None
  | AtFinalYield => Some (s, {| position := Done; seen := seen w |})
  | Done => Some (s, w)
  end.

(** The continuation of [closed = await nextChange], possible once the
    promise is resolved. *)
Definition resume {T : Type} (s : Stream T) (w : Watcher T) : option (Stream T * Watcher T) :=
  match position w with
  | Awaiting p =>
      match nth_error (promises s) p with
      | Some (Some false) => Some (loopYield s w)
      | Some (Some true) =>
          Some (s, {| position := AtFinalYield; seen := (seen w ++ [value s])%list |})
      | _ => None
      end
  | _ => None
  end.

(** A stream with the generators made from it, and what can happen. *)
Record System (T : Type) : Type := { stream : Stream T; watchers : list (Watcher T) }.

Arguments stream {T} s.
Arguments watchers {T} s.

Inductive Op (T : Type) : Type :=
| OpSet (v : T)
| OpClose
| OpWatch
| OpNext (i : nat)
| OpResume (i : nat).

Arguments OpSet {T} v.
Arguments OpClose {T}.
Arguments OpWatch {T}.
Arguments OpNext {T} i.
Arguments OpResume {T} i.

Fixpoint update {A : Type} (i : nat) (x : A) (l : list A) {struct l} : list A :=
  match l with
  | [] => []
  | y :: rest =>
      match i with
      | O => x :: rest
      | S i' => y :: update i' x rest
      end
  end.

Definition onWatcher {T : Type} (f : Stream T -> Watcher T -> option (Stream T * Watcher T))
           (i : nat) (sys : System T) : option (System T) :=
  match nth_error (watchers sys) i with
  | Some w =>
      match f (stream sys) w with
      | Some (s', w') => Some {| stream := s'; watchers := update i w' (watchers sys) |}
      | None => None
      end
  | None => None
  end.

(** One operation; [None] when it throws or cannot happen. *)
Definition step {T : Type} (op : Op T) (sys : System T) : option (System T) :=
  match op with
  | OpSet v =>
      match set v (stream sys) with
      | inr s' => Some {| stream := s'; watchers := watchers sys |}
      | inl _ => None
      end
  | OpClose => Some {| stream := close (stream sys); watchers := watchers sys |}
  | OpWatch =>
      Some {| stream := stream sys; watchers := (watchers sys ++ [watch])%list |}
  | OpNext i => onWatcher next i sys
  | OpResume i => onWatcher resume i sys
  end.

(** A sequence of operations; one that throws or cannot happen leaves the
    system as it is. *)
Fixpoint run {T : Type} (ops : list (Op T)) (sys : System T) : System T :=
  match ops with
  | [] => sys
  | op :: rest =>
      run rest (match step op sys with Some sys' => sys' | None => sys end)
  end.

Definition initial {T : Type} (v : T) : System T :=
  {| stream := create v; watchers := [] |}.

(** The promise [p] is still pending. *)
Definition pending {T : Type} (s : Stream T) (p : nat) : Prop :=
  nth_error (promises s) p = Some None.

(** The last value a watcher has seen. *)
Definition latest {T : Type} (w : Watcher T) : option T := last (map Some (seen w)) None.

(** Every pending promise has its waker registered. *)
Definition noLostWaker {T : Type} (s : Stream T) : Prop :=
  forall p, pending s p -> exists ws, wakers s = Some ws /\ In p ws.

(** What a generator knows at each suspension point. *)
Definition wellPlaced {T : Type} (s : Stream T) (w : Watcher T) : Prop :=
  match position w with
  | Start => seen w = []
  | AtYield p | Awaiting p =>
      nth_error (promises s) p <> None /\
      (pending s p -> latest w = Some (value s)) /\
      (nth_error (promises s) p = Some (Some true) ->
       isClosed s = true /\ latest w = Some (value s))
  | AtFinalYield | Done =>
      isClosed s = true /\ exists init, seen w = (init ++ [value s; value s])%list
  end.

Definition consistent {T : Type} (sys : System T) : Prop :=
  noLostWaker (stream sys) /\ Forall (wellPlaced (stream sys)) (watchers sys).

(** What a move of one generator preserves. *)
Definition keeps {T : Type} (f : Stream T -> Watcher T -> option (Stream T * Watcher T))
  : Prop :=
  forall s w s' w',
    f s w = Some (s', w') ->
    noLostWaker s -> wellPlaced s w ->
    noLostWaker s' /\ wellPlaced s' w' /\
    forall other, wellPlaced s other -> wellPlaced s' other.

(** A move of one generator, skipped when it cannot happen. *)
Definition move {T : Type} (f : Stream T -> Watcher T -> option (Stream T * Watcher T))
           (sw : Stream T * Watcher T) : Stream T * Watcher T :=
  match f (fst sw) (snd sw) with
  | Some sw' => sw'
  | None => sw
  end.

(** Letting watcher [i] take every value it can get. *)
Definition drain {T : Type} (i : nat) : list (Op T) :=
  [OpNext i; OpResume i; OpNext i; OpResume i; OpNext i].

End ValueStream.

(** * Properties *)

(** ** Name sanitisation *)

Lemma invalidNameChar_allowed (c : ascii) :
  classMatches invalidNameChar c = negb (allowedNameChar c).
Proof.
  destruct c as [[] [] [] [] [] [] [] []]; reflexivity.
Qed.

Lemma makeValidDropletName_cons (c : ascii) (s : string) :
  makeValidDropletName (String c s) =
  if allowedNameChar c then String c (makeValidDropletName s)
  else makeValidDropletName s.
Proof.
  unfold makeValidDropletName; cbn [replaceAll].
  rewrite invalidNameChar_allowed.
  destruct (allowedNameChar c); reflexivity.
Qed.

Lemma makeValidDropletName_keepAllowed (s : string) :
  makeValidDropletName s = keepAllowed s.
Proof.
  unfold keepAllowed.
  induction s as [|c s IH]; [reflexivity|].
  rewrite makeValidDropletName_cons; cbn [list_ascii_of_string filter].
  destruct (allowedNameChar c); cbn [string_of_list_ascii]; now rewrite IH.
Qed.

Lemma makeValidDropletName_chars (s : string) (c : ascii) :
  In c (list_ascii_of_string (makeValidDropletName s)) -> allowedNameChar c = true.
Proof.
  rewrite makeValidDropletName_keepAllowed; unfold keepAllowed.
  rewrite list_ascii_of_string_of_list_ascii.
  intros H; apply filter_In in H; apply H.
Qed.

Lemma makeValidDropletName_fixes (s : string) :
  (forall c, In c (list_ascii_of_string s) -> allowedNameChar c = true) ->
  makeValidDropletName s = s.
Proof.
  induction s as [|c s IH]; intros H; [reflexivity|].
  rewrite makeValidDropletName_cons, (H c (or_introl eq_refl)), IH; [reflexivity|].
  intros d Hd; apply H; now right.
Qed.

(** C7: sanitisation removes exactly the characters outside
    [[A-Za-z0-9-]]: the result, read as a list of characters, is the input
    filtered by membership in that alphabet, so the remaining characters
    keep their order and case; and ["My Node! #1"] becomes ["MyNode1"]. *)
Theorem C7_sanitize_removes_exactly_invalid :
  (forall name,
      list_ascii_of_string (makeValidDropletName name) =
      filter allowedNameChar (list_ascii_of_string name)) /\
  makeValidDropletName "My Node! #1" = "MyNode1".
Proof.
  split; [|reflexivity].
  intros name; rewrite makeValidDropletName_keepAllowed; unfold keepAllowed.
  apply list_ascii_of_string_of_list_ascii.
Qed.

(** ** Strings *)

Lemma append_nil_r (s : string) : s ++ "" = s.
Proof. induction s as [|c s IH]; cbn; [reflexivity | now rewrite IH]. Qed.

Lemma append_assoc (a b c : string) : (a ++ b) ++ c = a ++ b ++ c.
Proof. induction a as [|x a IH]; cbn; [reflexivity | now rewrite IH]. Qed.


Lemma Substring_middle (before x after : string) : Substring x (before ++ x ++ after).
Proof. now exists before, after. Qed.

Lemma Substring_end (before x : string) : Substring x (before ++ x).
Proof. exists before, ""; now rewrite append_nil_r. Qed.

Lemma prefix_app (needle s : string) :
  String.prefix needle s = true <-> exists rest, s = needle ++ rest.
Proof.
  revert s; induction needle as [|a needle IH]; intros s.
  - destruct s; cbn; split; eauto.
  - destruct s as [|b s]; cbn.
    + split; [discriminate | intros (rest & H); discriminate].
    + destruct (ascii_dec a b) as [<-|Hne].
      * rewrite IH; split; intros (rest & H); exists rest; congruence.
      * split; [discriminate | intros (rest & H); congruence].
Qed.

Lemma Substring_tail (needle : string) (c : ascii) (s : string) :
  String.prefix needle (String c s) = false ->
  Substring needle (String c s) <-> Substring needle s.
Proof.
  intros Hpre; split; intros (before & after & H).
  - destruct before as [|b before]; cbn in H.
    + assert (String.prefix needle (String c s) = true) by (apply prefix_app; eauto).
      congruence.
    + injection H as _ ->; now exists before, after.
  - exists (String c before), after; cbn; now rewrite H.
Qed.

Lemma indexOfFrom_Substring (needle s : string) :
  forall pos, 0 <= pos -> 0 <= indexOfFrom pos needle s <-> Substring needle s.
Proof.
  induction s as [|c s IH]; intros pos Hpos; cbn [indexOfFrom].
  - destruct (String.prefix needle "") eqn:Hpre.
    + split; [intros _ | lia].
      apply prefix_app in Hpre as (rest & H); now exists "", rest.
    + split; [lia|]; intros (before & after & H).
      assert (String.prefix needle "" = true); [|congruence].
      destruct before; [|discriminate]; apply prefix_app; eauto.
  - destruct (String.prefix needle (String c s)) eqn:Hpre.
    + split; [intros _ | lia].
      apply prefix_app in Hpre as (rest & H); now exists "", rest.
    + rewrite (IH (pos + 1)) by lia; symmetry; now apply Substring_tail.
Qed.

Lemma toLowerCase_app (a b : string) :
  toLowerCase (a ++ b) = toLowerCase a ++ toLowerCase b.
Proof. induction a as [|x a IH]; cbn; [reflexivity | now rewrite IH]. Qed.

Lemma toLowerCase_split (p q : string) :
  forall s, toLowerCase s = p ++ q ->
            exists s1 s2, s = s1 ++ s2 /\ toLowerCase s1 = p /\ toLowerCase s2 = q.
Proof.
  induction p as [|c p IH]; intros s H.
  - now exists "", s.
  - destruct s as [|d s]; [discriminate|]; cbn in H; injection H as Hc Hs.
    destruct (IH s Hs) as (s1 & s2 & -> & H1 & H2).
    exists (String d s1), s2; cbn; now rewrite Hc, H1.
Qed.

(** The test of the retry loop is the containment of the word in any case. *)
Lemma mentionsFinalizing_spec (e : JsError) :
  mentionsFinalizing e = true <-> containsIgnoringCase "finalizing" (message e).
Proof.
  unfold mentionsFinalizing, indexOf.
  rewrite Z.leb_le, indexOfFrom_Substring by lia; split.
  - intros (before & after & H).
    apply toLowerCase_split in H as (b & rest & Hm & Hb & H).
    apply toLowerCase_split in H as (x & a & -> & Hx & Ha).
    now exists b, x, a.
  - intros (before & x & after & -> & Hx).
    rewrite !toLowerCase_app, Hx; apply Substring_middle.
Qed.

(** ** The transport *)

Section Transport.

Variable axios : nat -> HttpCall -> AxiosResult.
Variable session : RestApiSession.

Lemma request_run (method path : string) (data : option JsValue) (w : World) :
  let call := requestCall session method path data in
  request axios session method path data w =
  (attempt axios (issued w) call,
   {| issued := S (issued w);
      trace := (trace w ++ EvHttp call :: fst (requestExecutor (axios (issued w) call)))%list |}).
Proof.
  cbv zeta; unfold request, attempt.
  now destruct (requestExecutor _).
Qed.

Lemma requestExecutor_success (status : Z) (body : JsValue) :
  200 <= status <= 299 ->
  requestExecutor (AxiosResponse status body) =
  ([EvConsole Log [LValue body]], Fulfilled (if truthy body then body else JObj [])).
Proof.
  intros [Hlo Hhi]; unfold requestExecutor, requestTry; cbn.
  apply Z.leb_le in Hlo, Hhi; now rewrite Hlo, Hhi.
Qed.

Lemma requestExecutor_unauthorized (body : JsValue) :
  requestExecutor (AxiosResponse 401 body) =
  ([EvConsole Err [LText "DigitalOcean request failed with Unauthorized error"]],
   Rejected XhrError).
Proof. reflexivity. Qed.

Lemma requestExecutor_failure (status : Z) (body : JsValue) :
  status < 200 \/ 299 < status ->
  status <> 401 ->
  requestExecutor (AxiosResponse status body) =
  match failureText status body with
  | inr text =>
      ([EvConsole Err [LText ("DigitalOcean request failed with status " ++ decimal status)]],
       Rejected (Error text))
  | inl e =>
      ([EvConsole Err [LText ("DigitalOcean request failed with status " ++ decimal status)];
        EvConsole Log [LException e]],
       Pending)
  end.
Proof.
  intros Hout Hne; unfold requestExecutor, requestTry, failureText; cbn.
  replace ((200 <=? status) && (status <=? 299)) with false
    by (symmetry; apply andb_false_iff; rewrite Z.leb_gt, Z.leb_gt; lia).
  apply Z.eqb_neq in Hne; rewrite Hne; cbn.
  destruct (getProp body "id") as [e|id]; [reflexivity|]; cbn.
  destruct (toStr id) as [e|idText]; [reflexivity|]; cbn.
  destruct (getProp body "message") as [e|msg]; [reflexivity|]; cbn.
  destruct (toStr msg) as [e|msgText]; reflexivity.
Qed.

Lemma requestExecutor_throws (e : JsError) :
  requestExecutor (AxiosThrows e) = ([EvConsole Log [LException e]], Pending).
Proof. reflexivity. Qed.

(** The executor only writes to the console. *)
Lemma requestExecutor_quiet (result : AxiosResult) :
  effects (fst (requestExecutor result)) = [].
Proof.
  destruct result as [status body|e]; [|reflexivity].
  unfold requestExecutor, requestTry; cbn.
  destruct ((200 <=? status) && (status <=? 299)); [reflexivity|].
  destruct (status =? 401); [reflexivity|].
  cbn; destruct (getProp body "id") as [e|id]; [reflexivity|].
  cbn; destruct (toStr id); [reflexivity|].
  cbn; destruct (getProp body "message") as [e|msg]; [reflexivity|].
  cbn; destruct (toStr msg); reflexivity.
Qed.

Lemma effects_app (a b : list Event) : effects (a ++ b) = (effects a ++ effects b)%list.
Proof. apply filter_app. Qed.

Lemma request_effects (method path : string) (data : option JsValue) (w : World) :
  effects (trace (snd (request axios session method path data w))) =
  (effects (trace w) ++ [EvHttp (requestCall session method path data)])%list.
Proof.
  rewrite request_run; cbn [snd trace].
  rewrite effects_app; cbn [effects filter isEffect].
  fold (effects (fst (requestExecutor
                        (axios (issued w) (requestCall session method path data))))).
  now rewrite requestExecutor_quiet.
Qed.

Lemma request_issued (method path : string) (data : option JsValue) (w : World) :
  issued (snd (request axios session method path data w)) = S (issued w).
Proof. now rewrite request_run. Qed.

Lemma request_result (method path : string) (data : option JsValue) (w : World) :
  fst (request axios session method path data w) =
  attempt axios (issued w) (requestCall session method path data).
Proof. now rewrite request_run. Qed.

End Transport.

(** C1: when the HTTP library throws (here a DNS failure), [request] logs
    the exception and its promise is neither resolved nor rejected: it
    stays pending, and the only trace of the failure is a console line. *)
Theorem C1_transport_failure_leaves_request_pending :
  request unreachable demoSession "GET" "account" None newWorld =
  (Pending,
   {| issued := 1;
      trace := [EvHttp (requestCall demoSession "GET" "account" None);
                EvConsole Log
                  [LException (AxiosError "getaddrinfo ENOTFOUND api.digitalocean.com")]] |}).
Proof. reflexivity. Qed.

(** Whatever the call, an exception of the HTTP library leaves the promise
    pending. *)
Lemma request_pending_on_throw axios session method path data w e :
  axios (issued w) (requestCall session method path data) = AxiosThrows e ->
  fst (request axios session method path data w) = Pending.
Proof.
  intros H; rewrite request_result; unfold attempt; now rewrite H.
Qed.

(** A failure response without a JSON body meets the same fate: reading
    [responseJson.id] throws inside the [try]. *)
Lemma request_pending_on_null_error_body axios session method path data w :
  axios (issued w) (requestCall session method path data) = AxiosResponse 500 JNull ->
  fst (request axios session method path data w) = Pending.
Proof.
  intros H; rewrite request_result; unfold attempt; now rewrite H.
Qed.

(** On the library of the program, an answer outside 200..299 is thrown and
    ends in the [catch]: the branches for 401 and for the other failures
    are never reached. *)
Lemma request_default_refused server session method path data w status body :
  server (issued w) (requestCall session method path data) = Answer status body ->
  status < 200 \/ 300 <= status ->
  request (axiosDefault server) session method path data w =
  (Pending,
   {| issued := S (issued w);
      trace := (trace w ++
                [EvHttp (requestCall session method path data);
                 EvConsole Log
                   [LException (AxiosError ("Request failed with status code "
                                              ++ decimal status))]])%list |}).
Proof.
  intros Hs Hout; unfold request, axiosDefault; rewrite Hs.
  replace ((200 <=? status) && (status <? 300)) with false
    by (symmetry; apply andb_false_iff; rewrite Z.leb_gt, Z.ltb_ge; lia).
  reflexivity.
Qed.

(** C5: on a 401 answer, and on a 404 answer with the body
    [{"id":"not_found","message":"droplet not found"}], the library throws
    ("Request failed with status code ..."), [request] logs the exception
    and its promise stays pending: neither [XhrError] nor the error with
    the provider's id and message is ever delivered. *)
Theorem C5_failure_answers_leave_request_pending :
  request (answering 401 (JObj [("id", JStr "unauthorized");
                                ("message", JStr "Unable to authenticate you")]))
          demoSession "GET" "account" None newWorld =
  (Pending,
   {| issued := 1;
      trace := [EvHttp (requestCall demoSession "GET" "account" None);
                EvConsole Log
                  [LException (AxiosError "Request failed with status code 401")]] |}) /\
  request (answering 404 (JObj [("id", JStr "not_found");
                                ("message", JStr "droplet not found")]))
          demoSession "GET" "droplets/7" None newWorld =
  (Pending,
   {| issued := 1;
      trace := [EvHttp (requestCall demoSession "GET" "droplets/7" None);
                EvConsole Log
                  [LException (AxiosError "Request failed with status code 404")]] |}).
Proof. split; reflexivity. Qed.

(** C6 (amended): on a status in 200..299 [request] resolves with the data
    handed over by the HTTP library when it is truthy and with the empty
    object otherwise (so in particular when the body is empty);
    [deleteDroplet] on a 204 with an empty body issues its single call and
    resolves with the empty object, the body being logged and tested but
    never parsed. *)
Theorem C6_success_resolves_with_truthy_body_or_empty_object axios session :
  (forall method path data w status body,
      axios (issued w) (requestCall session method path data) = AxiosResponse status body ->
      200 <= status <= 299 ->
      fst (request axios session method path data w) =
        Fulfilled (if truthy body then body else JObj []) /\
      (emptyBody body = true ->
       fst (request axios session method path data w) = Fulfilled (JObj []))) /\
  (forall dropletId w,
      let call := requestCall session "DELETE" ("droplets/" ++ decimal dropletId) None in
      axios (issued w) call = AxiosResponse 204 (JStr "") ->
      deleteDroplet axios session dropletId w =
      (Fulfilled (JObj []),
       {| issued := S (issued w);
          trace := (trace w ++ [EvConsole Info [LText "Requesting droplet deletion"];
                                EvHttp call;
                                EvConsole Log [LValue (JStr "")]])%list |})).
Proof.
  split.
  - intros method path data w status body Hax Hst.
    assert (Hres : fst (request axios session method path data w) =
                   Fulfilled (if truthy body then body else JObj [])).
    { rewrite request_result; unfold attempt; rewrite Hax.
      now rewrite requestExecutor_success. }
    split; [exact Hres|].
    intros Hempty; rewrite Hres.
    destruct body as [| |b|n|s|l|f]; try discriminate; try reflexivity.
    cbn in Hempty |- *; now rewrite Hempty.
  - intros dropletId w call Hax.
    unfold deleteDroplet; rewrite request_run.
    unfold attempt, info, emit; cbn [issued trace].
    fold call; rewrite Hax; cbn.
    now rewrite <- app_assoc.
Qed.

Lemma C6_witness :
  fst (request (answering 200 (JObj [("droplets", JArr [])])) demoSession
               "GET" "droplets" None newWorld) = Fulfilled (JObj [("droplets", JArr [])]) /\
  fst (deleteDroplet (answering 204 (JStr "")) demoSession 7 newWorld) = Fulfilled (JObj []).
Proof.
  split.
  - apply (proj1 (C6_success_resolves_with_truthy_body_or_empty_object
                    (answering 200 (JObj [("droplets", JArr [])])) demoSession)
                 "GET" "droplets" None newWorld 200 _ eq_refl); lia.
  - rewrite (proj2 (C6_success_resolves_with_truthy_body_or_empty_object
                      (answering 204 (JStr "")) demoSession) 7 newWorld eq_refl).
    reflexivity.
Defined.

(** C6 as stated fails: a 200 response whose body is the JSON text
    [false] is not empty, yet [request] resolves with the empty object
    and not with the parsed body. *)
Lemma C6_counterexample :
  emptyBody (JBool false) = false /\
  fst (request (answering 200 (JBool false)) demoSession "GET" "account" None newWorld)
    = Fulfilled (JObj []) /\
  fst (request (answering 200 (JBool false)) demoSession "GET" "account" None newWorld)
    <> Fulfilled (JBool false).
Proof. repeat split; discriminate. Qed.

(** ** Queries by tag *)















(** ** Droplet creation *)

Section Creation.

Variable axios : nat -> HttpCall -> AxiosResult.
Variable session : RestApiSession.
Variables dropletName region : string.
Variable keyId : JsValue.
Variable dropletSpec : DigitalOceanDropletSpecification.

Local Abbreviation create := (createCall session dropletName region keyId dropletSpec).

Local Abbreviation loop fuel requestCount w :=
  (makeRequestRecursive axios session fuel dropletName region keyId dropletSpec
                        requestCount w).

Local Abbreviation afterRequest requestCount w :=
  (afterCreateRequest axios session dropletName region keyId dropletSpec requestCount w).

Lemma afterRequest_issued (requestCount : Z) (w : World) :
  issued (afterRequest requestCount w) = S (issued w).
Proof. unfold afterCreateRequest; now rewrite request_issued. Qed.

Lemma afterRequest_effects (requestCount : Z) (w : World) :
  effects (trace (afterRequest requestCount w)) =
  (effects (trace w) ++ [EvHttp create])%list.
Proof.
  unfold afterCreateRequest; rewrite request_effects.
  unfold info, emit; cbn [trace]; rewrite effects_app; cbn.
  now rewrite app_nil_r.
Qed.

(** One unfolding of the loop, by the way the request ends. *)
Lemma loop_unfold (fuel : nat) (requestCount : Z) (w : World) :
  loop (S fuel) requestCount w =
  match attempt axios (issued w) create with
  | Fulfilled v => Some (Fulfilled v, afterRequest requestCount w)
  | Rejected e =>
      if mentionsFinalizing e && (requestCount + 1 <? MAX_REQUESTS)
      then loop fuel (requestCount + 1)
                (emit [EvSetTimeout RETRY_TIMEOUT_MS] (afterRequest requestCount w))
      else Some (Rejected e, afterRequest requestCount w)
  | Pending => Some (Pending, afterRequest requestCount w)
  end.
Proof.
  unfold afterCreateRequest; cbn [makeRequestRecursive].
  pose proof (request_result axios session "POST" "droplets"
                (Some (createDropletData dropletName region keyId dropletSpec))
                (info ("Requesting droplet creation " ++ decimal (requestCount + 1) ++ "/"
                         ++ decimal MAX_REQUESTS) w)) as Hr.
  cbn [info emit issued] in Hr.
  fold (createCall session dropletName region keyId dropletSpec) in Hr.
  destruct (request axios session "POST" "droplets" _ _) as [p w1].
  cbn [fst snd] in *; now subst p.
Qed.

(** A request after which the loop does not retry ends the loop. *)
Lemma loop_stops (fuel : nat) (requestCount : Z) (w : World) :
  stops requestCount (attempt axios (issued w) create) ->
  exists w',
    loop (S fuel) requestCount w = Some (attempt axios (issued w) create, w') /\
    issued w' = S (issued w) /\
    effects (trace w') = (effects (trace w) ++ [EvHttp create])%list.
Proof.
  intros Hstop; exists (afterRequest requestCount w).
  split; [|split; [apply afterRequest_issued | apply afterRequest_effects]].
  rewrite loop_unfold.
  destruct (attempt axios (issued w) create) as [v|e|]; try reflexivity.
  destruct Hstop as [->|Hmax]; [reflexivity|].
  replace (requestCount + 1 <? MAX_REQUESTS) with false
    by (symmetry; apply Z.ltb_ge; lia).
  now rewrite andb_false_r.
Qed.

(** [k] consecutive "finalizing" failures below the bound are absorbed:
    the loop is back at its head, [k] requests and [k] timers later. *)
Lemma loop_retries (k : nat) :
  forall (fuel : nat) (requestCount : Z) (w : World),
    (forall i, (i < k)%nat -> failsFinalizing axios (issued w + i) create) ->
    requestCount + Z.of_nat k < MAX_REQUESTS ->
    exists w',
      loop (k + fuel) requestCount w = loop fuel (requestCount + Z.of_nat k) w' /\
      issued w' = (issued w + k)%nat /\
      effects (trace w') = (effects (trace w) ++ retries create k)%list.
Proof.
  induction k as [|k IH]; intros fuel requestCount w Hfail Hbound.
  - exists w; cbn; rewrite Z.add_0_r, Nat.add_0_r, app_nil_r; auto.
  - destruct (Hfail 0%nat ltac:(lia)) as (e & He & Hfin).
    apply mentionsFinalizing_spec in Hfin.
    rewrite Nat.add_0_r in He.
    set (w1 := emit [EvSetTimeout RETRY_TIMEOUT_MS] (afterRequest requestCount w)).
    destruct (IH fuel (requestCount + 1) w1) as (w' & Hloop & Hiss & Heff).
    + intros i Hi; unfold w1, emit; cbn [issued]; rewrite afterRequest_issued.
      replace (S (issued w) + i)%nat with (issued w + S i)%nat by lia.
      apply Hfail; lia.
    + lia.
    + exists w'; split; [|split].
      * cbn [Nat.add]; rewrite loop_unfold, He, Hfin.
        replace (requestCount + 1 <? MAX_REQUESTS) with true
          by (symmetry; apply Z.ltb_lt; lia).
        cbn [andb]; fold w1; rewrite Hloop; f_equal; lia.
      * rewrite Hiss; unfold w1, emit; cbn [issued]; rewrite afterRequest_issued; lia.
      * rewrite Heff; unfold w1, emit; cbn [trace].
        rewrite effects_app, afterRequest_effects; cbn.
        now rewrite <- !app_assoc.
Qed.

(** [k] absorbed failures followed by a request that ends the loop. *)
Lemma loop_retries_then_stops (k fuel : nat) (requestCount : Z) (w : World) :
  (forall i, (i < k)%nat -> failsFinalizing axios (issued w + i) create) ->
  requestCount + Z.of_nat k < MAX_REQUESTS ->
  stops (requestCount + Z.of_nat k) (attempt axios (issued w + k) create) ->
  exists w',
    loop (k + S fuel) requestCount w = Some (attempt axios (issued w + k) create, w') /\
    issued w' = S (issued w + k) /\
    effects (trace w') = (effects (trace w) ++ retries create k ++ [EvHttp create])%list.
Proof.
  intros Hfail Hbound Hstop.
  destruct (loop_retries k (S fuel) requestCount w Hfail Hbound) as (w1 & Hloop & Hiss & Heff).
  rewrite <- Hiss in Hstop.
  destruct (loop_stops fuel _ w1 Hstop) as (w' & Hlast & Hiss' & Heff').
  exists w'; rewrite Hloop, Hlast, Hiss', Heff', Heff, Hiss, <- app_assoc; auto.
Qed.

(** The run of the loop is defined: ten unfoldings are always enough. *)
Lemma loop_total (fuel : nat) :
  forall (requestCount : Z) (w : World),
    MAX_REQUESTS - requestCount <= Z.of_nat fuel ->
    (0 < fuel)%nat ->
    exists r, loop fuel requestCount w = Some r.
Proof.
  induction fuel as [|fuel IH]; intros requestCount w Hfuel Hpos; [lia|].
  rewrite loop_unfold.
  destruct (attempt axios (issued w) create) as [v|e|]; eauto.
  destruct (mentionsFinalizing e); cbn [andb]; eauto.
  destruct (requestCount + 1 <? MAX_REQUESTS) eqn:Hlt; eauto.
  apply Z.ltb_lt in Hlt; apply IH; unfold MAX_REQUESTS in *; lia.
Qed.

Lemma makeCreateDropletRequest_total (w : World) :
  exists r,
    makeCreateDropletRequest axios session dropletName region keyId dropletSpec w = Some r.
Proof.
  unfold makeCreateDropletRequest; apply loop_total; unfold MAX_REQUESTS; cbn; lia.
Qed.

Lemma makeCreateDropletRequest_runs (k : nat) (w : World) :
  (k < 10)%nat ->
  (forall i, (i < k)%nat -> failsFinalizing axios (issued w + i) create) ->
  stops (Z.of_nat k) (attempt axios (issued w + k) create) ->
  exists w',
    makeCreateDropletRequest axios session dropletName region keyId dropletSpec w =
      Some (attempt axios (issued w + k) create, w') /\
    issued w' = S (issued w + k) /\
    effects (trace w') = (effects (trace w) ++ retries create k ++ [EvHttp create])%list.
Proof.
  intros Hk Hfail Hstop.
  unfold makeCreateDropletRequest.
  replace (Z.to_nat MAX_REQUESTS) with (k + S (9 - k))%nat by (unfold MAX_REQUESTS; lia).
  apply loop_retries_then_stops; [assumption | unfold MAX_REQUESTS; lia | assumption].
Qed.

(** Whatever the HTTP library answers, a finished loop has issued some
    retried requests, each followed by a timer, and one last request. *)
Lemma loop_shape (fuel : nat) :
  forall (requestCount : Z) (w : World) (r : Promise JsValue) (w' : World),
    loop fuel requestCount w = Some (r, w') ->
    exists k,
      issued w' = S (issued w + k) /\
      effects (trace w') = (effects (trace w) ++ retries create k ++ [EvHttp create])%list.
Proof.
  induction fuel as [|fuel IH]; intros requestCount w r w' Hrun; [discriminate|].
  rewrite loop_unfold in Hrun.
  assert (Hdone : forall p, Some (p, afterRequest requestCount w) = Some (r, w') ->
            exists k,
              issued w' = S (issued w + k) /\
              effects (trace w') =
                (effects (trace w) ++ retries create k ++ [EvHttp create])%list).
  { intros p Hp; injection Hp as _ <-; exists 0%nat.
    now rewrite afterRequest_issued, afterRequest_effects, Nat.add_0_r. }
  destruct (attempt axios (issued w) create) as [v|e|]; try (now apply (Hdone _ Hrun)).
  destruct (mentionsFinalizing e && (requestCount + 1 <? MAX_REQUESTS));
    [|now apply (Hdone _ Hrun)].
  apply IH in Hrun as (k & Hi & He); exists (S k); split.
  - rewrite Hi; unfold emit; cbn [issued]; rewrite afterRequest_issued; lia.
  - rewrite He; unfold emit; cbn [trace].
    rewrite effects_app, afterRequest_effects; cbn.
    now rewrite <- !app_assoc.
Qed.

End Creation.

Section Registration.

Variable axios : nat -> HttpCall -> AxiosResult.
Variable session : RestApiSession.

Lemma registerKey_world (keyName publicKeyForSSH : string) (w : World) :
  issued (snd (registerKey_ axios session keyName publicKeyForSSH w)) = S (issued w) /\
  effects (trace (snd (registerKey_ axios session keyName publicKeyForSSH w))) =
    (effects (trace w) ++ [EvHttp (keyCall session keyName publicKeyForSSH)])%list.
Proof.
  unfold registerKey_, andThen.
  pose proof (request_issued axios session "POST" "account/keys"
                (Some (JObj [("name", JStr keyName); ("public_key", JStr publicKeyForSSH)]))
                (info "Requesting key registration" w)) as Hi.
  pose proof (request_effects axios session "POST" "account/keys"
                (Some (JObj [("name", JStr keyName); ("public_key", JStr publicKeyForSSH)]))
                (info "Requesting key registration" w)) as He.
  destruct (request axios session "POST" "account/keys" _ _) as [[v|e|] w1];
    cbn [snd] in *; rewrite Hi, He; unfold info, emit; cbn [issued trace];
    rewrite effects_app; cbn; now rewrite app_nil_r.
Qed.

Lemma registerKey_result (keyName publicKeyForSSH : string) (w : World) :
  fst (registerKey_ axios session keyName publicKeyForSSH w) =
  match attempt axios (issued w) (keyCall session keyName publicKeyForSSH) with
  | Fulfilled response =>
      match getProp response "ssh_key" with
      | inr ssh_key =>
          match getProp ssh_key "id" with
          | inr id => Fulfilled id
          | inl e => Rejected e
          end
      | inl e => Rejected e
      end
  | Rejected e => Rejected e
  | Pending => Pending
  end.
Proof.
  unfold registerKey_, andThen.
  pose proof (request_result axios session "POST" "account/keys"
                (Some (JObj [("name", JStr keyName); ("public_key", JStr publicKeyForSSH)]))
                (info "Requesting key registration" w)) as Hr.
  cbn [info emit issued] in Hr; fold (keyCall session keyName publicKeyForSSH) in Hr.
  destruct (request axios session "POST" "account/keys" _ _) as [p w1].
  cbn [fst] in Hr; subst p.
  destruct (attempt axios (issued w) _) as [response|e|]; try reflexivity.
  cbn [fst]; destruct (getProp response "ssh_key") as [e|k]; [reflexivity|].
  destruct (getProp k "id"); reflexivity.
Qed.

Variables displayName region publicKeyForSSH : string.
Variable dropletSpec : DigitalOceanDropletSpecification.

Local Abbreviation key := (keyCall session (makeValidDropletName displayName) publicKeyForSSH).

(** Once the key is registered, [createDroplet] is the retry loop run
    after that single registration call. *)
Lemma createDroplet_registered (w : World) (response sshKey keyId : JsValue) :
  attempt axios (issued w) key = Fulfilled response ->
  getProp response "ssh_key" = inr sshKey ->
  getProp sshKey "id" = inr keyId ->
  exists w1,
    createDroplet axios session displayName region publicKeyForSSH dropletSpec w =
      makeCreateDropletRequest axios session (makeValidDropletName displayName) region
                               keyId dropletSpec w1 /\
    issued w1 = S (issued w) /\
    effects (trace w1) = (effects (trace w) ++ [EvHttp key])%list.
Proof.
  intros Hkey Hssh Hid; unfold createDroplet.
  set (w0 := emit [EvConsole Log [LText "PUBLICK KEY"; LText publicKeyForSSH]] w).
  pose proof (registerKey_result (makeValidDropletName displayName) publicKeyForSSH w0) as Hr.
  pose proof (registerKey_world (makeValidDropletName displayName) publicKeyForSSH w0)
    as [Hi He].
  change (issued w0) with (issued w) in Hr, Hi; fold key in Hr, He.
  rewrite Hkey, Hssh, Hid in Hr.
  destruct (registerKey_ axios session _ publicKeyForSSH w0) as [p w1].
  cbn [fst snd] in *; subst p; exists w1; repeat split; try assumption.
  rewrite He; unfold w0, emit; cbn [trace]; rewrite effects_app; cbn.
  now rewrite app_nil_r.
Qed.

(** A registration that does not succeed ends [createDroplet] there. *)
Lemma createDroplet_not_registered (w : World) (e : JsError) :
  attempt axios (issued w) key = Rejected e ->
  exists w1,
    createDroplet axios session displayName region publicKeyForSSH dropletSpec w =
      Some (Rejected e, w1) /\
    issued w1 = S (issued w) /\
    effects (trace w1) = (effects (trace w) ++ [EvHttp key])%list.
Proof.
  intros Hkey; unfold createDroplet.
  set (w0 := emit [EvConsole Log [LText "PUBLICK KEY"; LText publicKeyForSSH]] w).
  pose proof (registerKey_result (makeValidDropletName displayName) publicKeyForSSH w0) as Hr.
  pose proof (registerKey_world (makeValidDropletName displayName) publicKeyForSSH w0)
    as [Hi He].
  change (issued w0) with (issued w) in Hr, Hi; fold key in Hr, He.
  rewrite Hkey in Hr.
  destruct (registerKey_ axios session _ publicKeyForSSH w0) as [p w1].
  cbn [fst snd] in *; subst p; exists w1; repeat split; try assumption.
  rewrite He; unfold w0, emit; cbn [trace]; rewrite effects_app; cbn.
  now rewrite app_nil_r.
Qed.

(** The run of [createDroplet] is defined, whatever the HTTP library
    answers; its promise may stay pending. *)
Lemma createDroplet_total (w : World) :
  exists r,
    createDroplet axios session displayName region publicKeyForSSH dropletSpec w = Some r.
Proof.
  unfold createDroplet.
  destruct (registerKey_ axios session _ publicKeyForSSH _) as [[keyId|e|] w1]; eauto.
  apply makeCreateDropletRequest_total.
Qed.

(** The shape of the history of any finished [createDroplet]. *)
Lemma createDroplet_shape (w : World) (r : Promise JsValue) (w' : World) :
  createDroplet axios session displayName region publicKeyForSSH dropletSpec w
    = Some (r, w') ->
  effects (trace w') = (effects (trace w) ++ [EvHttp key])%list \/
  exists keyId k,
    effects (trace w') =
      (effects (trace w) ++
       EvHttp key ::
       retries (createCall session (makeValidDropletName displayName) region keyId
                           dropletSpec) k ++
       [EvHttp (createCall session (makeValidDropletName displayName) region keyId
                           dropletSpec)])%list.
Proof.
  unfold createDroplet.
  set (w0 := emit [EvConsole Log [LText "PUBLICK KEY"; LText publicKeyForSSH]] w).
  pose proof (registerKey_world (makeValidDropletName displayName) publicKeyForSSH w0)
    as [_ He].
  fold key in He.
  assert (He0 : effects (trace w0) = effects (trace w)).
  { unfold w0, emit; cbn [trace]; rewrite effects_app; cbn; apply app_nil_r. }
  rewrite He0 in He.
  destruct (registerKey_ axios session _ publicKeyForSSH w0) as [[keyId|e|] w1];
    cbn [snd] in He; intros Hrun.
  - right; exists keyId.
    apply loop_shape in Hrun as (k & _ & Hk); exists k.
    now rewrite Hk, He, <- app_assoc.
  - left; now injection Hrun as _ <-.
  - left; now injection Hrun as _ <-.
Qed.

End Registration.

(** C2: the key is registered, then the provider answers the creation
    request with 422 and a "Finalizing" message three times and would
    accept the fourth.  The library throws on the first 422, [request]
    only logs it, and [createDroplet] stays pending after a single
    creation request: no timer is set, no second attempt is made, and the
    droplet of the fourth answer is never asked for. *)
Theorem C2_finalizing_answer_is_never_retried :
  exists w',
    createDroplet
      (scripted [keyRegistered; stillFinalizing; stillFinalizing; stillFinalizing;
                 dropletCreated] dropletCreated)
      demoSession "My Node! #1" "nyc3" "ssh-rsa AAAA" demoSpec newWorld
      = Some (Pending, w') /\
    issued w' = 2%nat /\
    effects (trace w') = [EvHttp demoKeyCall; EvHttp demoCreateCall].
Proof. eexists; split; [reflexivity | split; reflexivity]. Qed.

(** C3: the key is registered and the provider answers every creation
    request with 422 and a "Finalizing" message.  [createDroplet] makes one
    creation request, not ten, and never rejects: it stays pending. *)
Theorem C3_repeated_finalizing_answers_give_one_attempt :
  exists w',
    createDroplet (scripted [keyRegistered] stillFinalizing)
                  demoSession "My Node! #1" "nyc3" "ssh-rsa AAAA" demoSpec newWorld
      = Some (Pending, w') /\
    issued w' = 2%nat /\
    effects (trace w') = [EvHttp demoKeyCall; EvHttp demoCreateCall].
Proof. eexists; split; [reflexivity | split; reflexivity]. Qed.

(** C4: the key is registered and the provider answers the first creation
    request with 422 "droplet limit exceeded".  [createDroplet] makes that
    one request and stays pending: the failure is logged and never
    reaches the caller. *)
Theorem C4_other_failure_answer_is_swallowed :
  exists w',
    createDroplet (scripted [keyRegistered; limitReached] dropletCreated)
                  demoSession "My Node! #1" "nyc3" "ssh-rsa AAAA" demoSpec newWorld
      = Some (Pending, w') /\
    issued w' = 2%nat /\
    effects (trace w') = [EvHttp demoKeyCall; EvHttp demoCreateCall] /\
    In (EvConsole Log [LException (AxiosError "Request failed with status code 422")])
       (trace w').
Proof.
  eexists; split; [reflexivity | split; [reflexivity | split; [reflexivity|]]].
  cbn; tauto.
Qed.

(** C9: the provider answers the key registration with 401.  No creation
    request follows, but [createDroplet] does not reject: the exception of
    the library is logged by [request] and the promise stays pending, so
    the registration failure never reaches the caller. *)
Theorem C9_registration_failure_answer_is_swallowed :
  exists w',
    createDroplet (scripted [unauthorized] dropletCreated)
                  demoSession "My Node! #1" "nyc3" "ssh-rsa AAAA" demoSpec newWorld
      = Some (Pending, w') /\
    issued w' = 1%nat /\
    effects (trace w') = [EvHttp demoKeyCall] /\
    In (EvConsole Log [LException (AxiosError "Request failed with status code 401")])
       (trace w').
Proof.
  eexists; split; [reflexivity | split; [reflexivity | split; [reflexivity|]]].
  cbn; tauto.
Qed.

(** ** The name on the wire *)

Lemma retries_calls (call c : HttpCall) (k : nat) :
  In (EvHttp c) (retries call k) -> c = call.
Proof.
  induction k as [|k IH]; cbn; [intros []|].
  intros [H|[H|H]]; [congruence | discriminate | now apply IH].
Qed.

(** C10: sanitising twice is sanitising once; a sanitised name has only
    characters of [[A-Za-z0-9-]]; and every HTTP call that a finished
    [createDroplet] adds to the history (the key registration and each
    creation request) carries the sanitised display name as its [name]. *)
Theorem C10_sanitize_idempotent_and_valid :
  (forall s, makeValidDropletName (makeValidDropletName s) = makeValidDropletName s) /\
  (forall s c,
      In c (list_ascii_of_string (makeValidDropletName s)) -> allowedNameChar c = true) /\
  (forall axios session displayName region publicKeyForSSH dropletSpec w r w',
      createDroplet axios session displayName region publicKeyForSSH dropletSpec w
        = Some (r, w') ->
      exists sent,
        effects (trace w') = (effects (trace w) ++ sent)%list /\
        forall c, In (EvHttp c) sent ->
                  sentName c = Some (makeValidDropletName displayName)).
Proof.
  split; [|split].
  - intros s; apply makeValidDropletName_fixes, makeValidDropletName_chars.
  - apply makeValidDropletName_chars.
  - intros axios session displayName region publicKeyForSSH dropletSpec w r w' Hrun.
    apply createDroplet_shape in Hrun as [He|(keyId & k & He)];
      eexists; (split; [exact He|]).
    + intros c [H|[]]; injection H as <-; reflexivity.
    + intros c [H|H]; [injection H as <-; reflexivity|].
      apply in_app_or in H as [H|[H|[]]].
      * apply retries_calls in H; subst c; reflexivity.
      * injection H as <-; reflexivity.
Qed.

Lemma C10_witness :
  match createDroplet (scripted [keyRegistered; stillFinalizing; dropletCreated] stillFinalizing)
                      demoSession "My Node! #1" "nyc3" "ssh-rsa AAAA" demoSpec newWorld with
  | Some (_, w') =>
      exists sent,
        effects (trace w') = sent /\
        forall c, In (EvHttp c) sent -> sentName c = Some "MyNode1"
  | None => False
  end.
Proof.
  destruct (createDroplet _ demoSession "My Node! #1" "nyc3" "ssh-rsa AAAA" demoSpec newWorld)
    as [[r w']|] eqn:Hrun.
  - apply (proj2 (proj2 C10_sanitize_idempotent_and_valid) _ _ _ _ _ _ _ _ _ Hrun).
  - vm_compute in Hrun; discriminate.
Defined.

(** ** Runs of the model *)

Example sanitize_twice : makeValidDropletName (makeValidDropletName "a b_c-D") = "abc-D".
Proof. reflexivity. Qed.

Example encodeURI_keeps_reserved : encodeURI "a&b=c#d <e>" = "a&b=c#d%20%3Ce%3E".
Proof. reflexivity. Qed.

Example finalizing_any_case :
  mentionsFinalizing (Error "XHR x failed with 422: account is FINALIZING") = true /\
  mentionsFinalizing XhrError = false.
Proof. split; reflexivity. Qed.

Example unauthorized_creation_leaves_the_flow_pending :
  option_map fst
    (createDroplet (scripted [keyRegistered; unauthorized] dropletCreated)
                   demoSession "n" "nyc3" "k" demoSpec newWorld)
  = Some Pending.
Proof. reflexivity. Qed.

Example creation_succeeds_on_accepted_answers :
  option_map fst
    (createDroplet (scripted [keyRegistered; dropletCreated] stillFinalizing)
                   demoSession "n" "nyc3" "k" demoSpec newWorld)
  = Some (Fulfilled (JObj [("droplet", JObj [("id", JNum 7)])])).
Proof. reflexivity. Qed.

Example conversion_of_an_object_with_its_own_toString_throws :
  toStr (JArr [JNum 1; JNull; JObj [("toString", JNum 1)]]) =
    inl (TypeError "Cannot convert object to primitive value") /\
  toStr (JArr [JNum 1; JNull; JObj [("id", JNum 1)]; JArr [JStr "a"; JStr "b"]]) =
    inr "1,,[object Object],a,b".
Proof. split; reflexivity. Qed.

Example createDroplet_pending_when_unreachable :
  option_map fst (createDroplet unreachable demoSession "n" "nyc3" "k" demoSpec newWorld)
  = Some Pending.
Proof. reflexivity. Qed.

Example registration_without_key_is_a_type_error :
  option_map fst
    (createDroplet (answering 200 (JStr "")) demoSession "n" "nyc3" "k" demoSpec newWorld)
  = Some (Rejected (TypeError "Cannot read properties of undefined (reading 'id')")).
Proof. reflexivity. Qed.

(** * Further properties of the session *)

(** ** How a request ends, case by case *)

Lemma getProp_nullish (v : JsValue) (key : string) :
  getProp v key = (if nullish v
                   then getProp v key
                   else inr (member key v)) /\
  (nullish v = true -> exists e, getProp v key = inl e).
Proof.
  unfold member; destruct v; cbn; split; try reflexivity; try discriminate; eauto.
Qed.

Lemma getProp_not_nullish (v : JsValue) (key : string) :
  nullish v = false -> getProp v key = inr (member key v).
Proof. unfold member; destruct v; cbn; intros H; try discriminate; reflexivity. Qed.

Lemma getProp_inr_not_nullish (v x : JsValue) (key : string) :
  getProp v key = inr x -> nullish v = false /\ member key v = x.
Proof.
  unfold member; destruct v; cbn; intros H; try discriminate; split; try reflexivity;
    now injection H.
Qed.

(** The decision table of [request]. *)
Lemma attempt_cases (axios : nat -> HttpCall -> AxiosResult) (n : nat) (call : HttpCall) :
  attempt axios n call =
  match axios n call with
  | AxiosThrows _ => Pending
  | AxiosResponse status body =>
      if (200 <=? status) && (status <=? 299)
      then Fulfilled (if truthy body then body else JObj [])
      else if status =? 401 then Rejected XhrError
           else match failureText status body with
                | inr text => Rejected (Error text)
                | inl _ => Pending
                end
  end.
Proof.
  unfold attempt; destruct (axios n call) as [status body|e]; [|reflexivity].
  unfold requestExecutor, requestTry, failureText; cbn.
  destruct ((200 <=? status) && (status <=? 299)); [reflexivity|].
  destruct (status =? 401); [reflexivity|].
  cbn; destruct (getProp body "id") as [e|id]; [reflexivity|].
  cbn; destruct (toStr id) as [e|idText]; [reflexivity|].
  cbn; destruct (getProp body "message") as [e|msg]; [reflexivity|].
  cbn; destruct (toStr msg) as [e|msgText]; reflexivity.
Qed.

Lemma in_range (status : Z) :
  (200 <=? status) && (status <=? 299) = true <-> 200 <= status <= 299.
Proof. rewrite andb_true_iff, !Z.leb_le; tauto. Qed.

Lemma out_of_range (status : Z) :
  (200 <=? status) && (status <=? 299) = false <-> status < 200 \/ 299 < status.
Proof. rewrite andb_false_iff, !Z.leb_gt; tauto. Qed.

Lemma attempt_fulfilled_truthy axios n call v :
  attempt axios n call = Fulfilled v -> truthy v = true.
Proof.
  rewrite attempt_cases; destruct (axios n call) as [status body|e]; [|discriminate].
  destruct ((200 <=? status) && (status <=? 299)).
  - intros H; injection H as <-; destruct (truthy body) eqn:Ht; [exact Ht | reflexivity].
  - destruct (status =? 401); [discriminate|].
    destruct (failureText status body); discriminate.
Qed.

Lemma truthy_not_nullish (v : JsValue) : truthy v = true -> nullish v = false.
Proof. destruct v; cbn; intros H; try discriminate; reflexivity. Qed.

(** X1: a value with which [request] resolves is never falsy (never
    [undefined], [null], [false], [0] or the empty text), so reading a
    member of it cannot throw. *)
Theorem X1_request_resolves_with_truthy_value axios session method path data w v :
  fst (request axios session method path data w) = Fulfilled v ->
  truthy v = true /\ forall key, getProp v key = inr (member key v).
Proof.
  rewrite request_result; intros H; apply attempt_fulfilled_truthy in H.
  split; [exact H|]; intros key.
  now apply getProp_not_nullish, truthy_not_nullish.
Qed.

Lemma X1_witness :
  truthy (JObj []) = true /\ forall key, getProp (JObj []) key = inr (member key (JObj [])).
Proof.
  apply (X1_request_resolves_with_truthy_value (answering 204 (JStr "")) demoSession
           "DELETE" "droplets/7" None newWorld (JObj [])).
  reflexivity.
Defined.

(** ** The library of the program *)

(** With its default validation the library hands over responses of
    status 200..299 only. *)
Lemma axiosDefault_cases (server : nat -> HttpCall -> ServerAnswer) (n : nat)
      (call : HttpCall) :
  (exists status body,
      server n call = Answer status body /\ 200 <= status < 300 /\
      axiosDefault server n call = AxiosResponse status body) \/
  ((forall status body, server n call = Answer status body -> status < 200 \/ 300 <= status) /\
   exists e, axiosDefault server n call = AxiosThrows e).
Proof.
  unfold axiosDefault; destruct (server n call) as [status body|reason].
  - destruct ((200 <=? status) && (status <? 300)) eqn:Hr.
    + left; exists status, body; repeat split; auto;
        apply andb_true_iff in Hr as [H1 H2];
        [now apply Z.leb_le | now apply Z.ltb_lt].
    + right; split; [|eauto].
      intros s b H; injection H as <- <-.
      apply andb_false_iff in Hr; rewrite Z.leb_gt, Z.ltb_ge in Hr; lia.
  - right; split; [intros s b H; discriminate | eauto].
Qed.

Lemma attempt_default (server : nat -> HttpCall -> ServerAnswer) (n : nat)
      (call : HttpCall) :
  (exists status body,
      server n call = Answer status body /\ 200 <= status < 300 /\
      attempt (axiosDefault server) n call =
        Fulfilled (if truthy body then body else JObj [])) \/
  ((forall status body, server n call = Answer status body -> status < 200 \/ 300 <= status) /\
   attempt (axiosDefault server) n call = Pending).
Proof.
  rewrite attempt_cases.
  destruct (axiosDefault_cases server n call)
    as [(status & body & Hs & Hr & ->)|(Hout & e & ->)].
  - left; exists status, body; repeat split; try assumption; try lia.
    replace ((200 <=? status) && (status <=? 299)) with true
      by (symmetry; apply in_range; lia).
    reflexivity.
  - right; split; [exact Hout | reflexivity].
Qed.

Lemma attempt_default_never_rejects server n call e :
  attempt (axiosDefault server) n call <> Rejected e.
Proof.
  destruct (attempt_default server n call) as [(s & b & _ & _ & ->)|(_ & ->)]; discriminate.
Qed.

(** X2: with the library as the program calls it, [request] resolves
    exactly on an answer of status 200..299 (with the body, or the empty
    object when the body is falsy), never rejects, and stays pending on
    every other answer, 401 included, and when there is no answer. *)
Theorem X2_request_with_the_default_validation server session method path data w :
  (forall status body,
      server (issued w) (requestCall session method path data) = Answer status body ->
      200 <= status < 300 ->
      fst (request (axiosDefault server) session method path data w) =
        Fulfilled (if truthy body then body else JObj [])) /\
  (fst (request (axiosDefault server) session method path data w) = Pending <->
   forall status body,
     server (issued w) (requestCall session method path data) = Answer status body ->
     status < 200 \/ 300 <= status) /\
  (forall e, fst (request (axiosDefault server) session method path data w) <> Rejected e).
Proof.
  rewrite request_result.
  destruct (attempt_default server (issued w) (requestCall session method path data))
    as [(s & b & Hs & Hr & Hatt)|(Hout & Hatt)]; rewrite Hatt; repeat split.
  - intros status body H _; rewrite Hs in H; now injection H as <- <-.
  - discriminate.
  - intros H; specialize (H s b Hs); lia.
  - discriminate.
  - intros status body H Hr; specialize (Hout status body H); lia.
  - intros _; exact Hout.
  - discriminate.
Qed.

Lemma X2_witness :
  fst (request (axiosDefault (served [Answer 200 (JObj [("account", JObj [])])] unauthorized))
               demoSession "GET" "account" None newWorld)
    = Fulfilled (JObj [("account", JObj [])]) /\
  fst (request (axiosDefault (served [unauthorized] unauthorized))
               demoSession "GET" "account" None newWorld) = Pending.
Proof.
  split.
  - apply (proj1 (X2_request_with_the_default_validation
                    (served [Answer 200 (JObj [("account", JObj [])])] unauthorized)
                    demoSession "GET" "account" None newWorld) 200 _ eq_refl); lia.
  - apply (proj1 (proj2 (X2_request_with_the_default_validation
                           (served [unauthorized] unauthorized)
                           demoSession "GET" "account" None newWorld))).
    intros status body H; injection H as <- _; lia.
Defined.

(** ** The single-request operations *)

Lemma andThen_request axios session method path (f : JsValue -> JsError + JsValue)
      (text : string) (w : World) :
  exists w1,
    andThen (request axios session method path None) f (info text w) =
      (match attempt axios (issued w) (requestCall session method path None) with
       | Fulfilled v => match f v with inr x => Fulfilled x | inl e => Rejected e end
       | Rejected e => Rejected e
       | Pending => Pending
       end, w1) /\
    issued w1 = S (issued w) /\
    effects (trace w1) =
      (effects (trace w) ++ [EvHttp (requestCall session method path None)])%list.
Proof.
  unfold andThen.
  pose proof (request_result axios session method path None (info text w)) as Hr.
  pose proof (request_issued axios session method path None (info text w)) as Hi.
  pose proof (request_effects axios session method path None (info text w)) as He.
  cbn [info emit issued trace] in Hr, Hi, He.
  rewrite effects_app in He; cbn in He; rewrite app_nil_r in He.
  destruct (request axios session method path None (info text w)) as [p w1].
  cbn [fst snd] in *; subst p; exists w1.
  destruct (attempt axios (issued w) _); auto.
Qed.

Lemma perform_run axios session op w :
  exists w1,
    perform axios session op w =
      (thenRead (reads op) (attempt axios (issued w) (wireCall session op)), w1) /\
    issued w1 = S (issued w) /\
    effects (trace w1) = (effects (trace w) ++ [EvHttp (wireCall session op)])%list.
Proof.
  destruct op as [|dropletId| |dropletId|dropletId|tag|]; cbn [perform reads thenRead].
  - apply (andThen_request axios session "GET" "account").
  - unfold deleteDroplet.
    pose proof (request_result axios session "DELETE" ("droplets/" ++ decimal dropletId)
                               None (info "Requesting droplet deletion" w)) as Hr.
    pose proof (request_issued axios session "DELETE" ("droplets/" ++ decimal dropletId)
                               None (info "Requesting droplet deletion" w)) as Hi.
    pose proof (request_effects axios session "DELETE" ("droplets/" ++ decimal dropletId)
                                None (info "Requesting droplet deletion" w)) as He.
    cbn [info emit issued trace] in Hr, Hi, He.
    rewrite effects_app in He; cbn in He; rewrite app_nil_r in He.
    destruct (request axios session "DELETE" _ None _) as [p w1].
    cbn [fst snd] in *; subst p; exists w1; auto.
  - apply (andThen_request axios session "GET" "regions").
  - apply (andThen_request axios session "GET" ("droplets/" ++ decimal dropletId)).
  - unfold getDropletTags, getDroplet.
    destruct (andThen_request axios session "GET" ("droplets/" ++ decimal dropletId)
                (fun response => getProp response "droplet") "Requesting droplet" w)
      as (w1 & Hrun & Hi & He).
    exists w1; split; [|now split].
    unfold andThen at 1; rewrite Hrun.
    change (requestCall session "GET" ("droplets/" ++ decimal dropletId) None)
      with (wireCall session (GetDropletTags dropletId)).
    destruct (attempt axios (issued w) _) as [v|e|]; try reflexivity.
    destruct (getProp v "droplet"); reflexivity.
  - apply (andThen_request axios session "GET" ("droplets?tag_name=" ++ encodeURI tag)).
  - apply (andThen_request axios session "GET" "droplets").
Qed.

(** X4: whatever the HTTP library answers, each of the seven operations,
    called with a droplet identifier that is a safe integer or with a tag
    without lone surrogate, issues exactly one request and sets no timer
    (nothing is retried); the request is the expected one: method, URL
    under the API base, bearer token and JSON content type, no body. *)
Theorem X4_operations_issue_one_call axios session op w :
  expressible op = true ->
  issued (snd (perform axios session op w)) = S (issued w) /\
  effects (trace (snd (perform axios session op w))) =
    (effects (trace w) ++ [EvHttp (wireCall session op)])%list.
Proof.
  intros _; destruct (perform_run axios session op w) as (w1 & -> & Hi & He); now split.
Qed.

Lemma X4_witness :
  issued (snd (perform (answering 204 (JStr "")) demoSession (DeleteDroplet 7) newWorld))
    = 1%nat /\
  effects (trace (snd (perform (answering 204 (JStr "")) demoSession (DeleteDroplet 7)
                               newWorld))) =
    [EvHttp {| method := "DELETE";
               url := "https://api.digitalocean.com/v2/droplets/7";
               headers := [("Authorization", "Bearer token");
                           ("Content-Type", "application/json")];
               data := None |}].
Proof.
  apply (X4_operations_issue_one_call (answering 204 (JStr "")) demoSession
           (DeleteDroplet 7) newWorld).
  reflexivity.
Defined.

(** X5: an operation that hands one member of the response to its caller
    never fails on its own: it rejects exactly when its request rejects,
    with the same error, and when the request resolves it resolves with
    that member, [undefined] if the response has none. *)
Theorem X5_projection_never_fails axios session op key w :
  projected op = Some key ->
  (forall e, fst (perform axios session op w) = Rejected e <->
             attempt axios (issued w) (wireCall session op) = Rejected e) /\
  (forall r, attempt axios (issued w) (wireCall session op) = Fulfilled r ->
             fst (perform axios session op w) = Fulfilled (member key r)).
Proof.
  intros Hkey.
  destruct (perform_run axios session op w) as (w1 & -> & _ & _); cbn [fst].
  assert (Hreads : reads op = [key])
    by (destruct op; cbn in Hkey |- *; congruence).
  rewrite Hreads; cbn [thenRead].
  destruct (attempt axios (issued w) (wireCall session op)) as [v|x|] eqn:Hatt.
  - apply attempt_fulfilled_truthy, truthy_not_nullish in Hatt.
    rewrite (getProp_not_nullish v key Hatt); split.
    + intros e; split; discriminate.
    + intros r H; now injection H as <-.
  - split; [tauto | discriminate].
  - split; [intros e; split; discriminate | discriminate].
Qed.

Lemma X5_witness :
  fst (perform (answering 200 (JStr "")) demoSession GetAccount newWorld) = Fulfilled JUndefined.
Proof.
  apply (proj2 (X5_projection_never_fails (answering 200 (JStr "")) demoSession
                  GetAccount "account" newWorld eq_refl) (JObj [])).
  reflexivity.
Defined.

(** X6: when the request for a droplet resolves with a response that has
    no [droplet] member, [getDroplet] resolves with [undefined] whereas
    [getDropletTags] rejects with the [TypeError] of reading [tags] from
    it; when the member is there, [getDropletTags] resolves with its
    [tags]. *)
Theorem X6_getDropletTags_needs_droplet axios session dropletId w r :
  attempt axios (issued w) (wireCall session (GetDroplet dropletId)) = Fulfilled r ->
  fst (getDroplet axios session dropletId w) = Fulfilled (member "droplet" r) /\
  (member "droplet" r = JUndefined ->
   fst (getDropletTags axios session dropletId w) =
     Rejected (TypeError "Cannot read properties of undefined (reading 'tags')")) /\
  (nullish (member "droplet" r) = false ->
   fst (getDropletTags axios session dropletId w) =
     Fulfilled (member "tags" (member "droplet" r))).
Proof.
  intros Hatt.
  pose proof (attempt_fulfilled_truthy _ _ _ _ Hatt) as Ht.
  apply truthy_not_nullish in Ht.
  destruct (perform_run axios session (GetDroplet dropletId) w) as (w1 & H1 & _ & _).
  destruct (perform_run axios session (GetDropletTags dropletId) w) as (w2 & H2 & _ & _).
  cbn [perform reads thenRead] in H1, H2.
  change (wireCall session (GetDropletTags dropletId))
    with (wireCall session (GetDroplet dropletId)) in H2.
  rewrite Hatt, (getProp_not_nullish r "droplet" Ht) in H1, H2.
  rewrite H1, H2; cbn [fst]; split; [reflexivity|split].
  - intros ->; reflexivity.
  - intros Hd; now rewrite (getProp_not_nullish _ "tags" Hd).
Qed.

Lemma X6_witness :
  fst (getDroplet (answering 200 (JStr "")) demoSession 7 newWorld) = Fulfilled JUndefined /\
  fst (getDropletTags (answering 200 (JStr "")) demoSession 7 newWorld) =
    Rejected (TypeError "Cannot read properties of undefined (reading 'tags')").
Proof.
  destruct (X6_getDropletTags_needs_droplet (answering 200 (JStr "")) demoSession 7 newWorld
              (JObj []) eq_refl) as (H1 & H2 & _).
  split; [exact H1 | exact (H2 eq_refl)].
Defined.

(** X7: every operation hangs exactly when its request does; in particular
    an exception of the HTTP library leaves the operation pending for
    ever, as no operation sets a timeout of its own. *)
Theorem X7_operations_hang_with_their_request axios session op w :
  (fst (perform axios session op w) = Pending <->
   attempt axios (issued w) (wireCall session op) = Pending) /\
  (forall e, axios (issued w) (wireCall session op) = AxiosThrows e ->
             fst (perform axios session op w) = Pending).
Proof.
  destruct (perform_run axios session op w) as (w1 & -> & _ & _); cbn [fst].
  assert (Hiff : thenRead (reads op) (attempt axios (issued w) (wireCall session op)) = Pending
                 <-> attempt axios (issued w) (wireCall session op) = Pending).
  { destruct (attempt axios (issued w) (wireCall session op)) as [v|x|];
      destruct op; cbn; try tauto; try (split; discriminate);
      try (destruct (getProp v _) as [x|y]; cbn; split; discriminate).
    destruct (getProp v "droplet") as [x|y]; cbn; [split; discriminate|].
    destruct (getProp y "tags"); split; discriminate. }
  split; [exact Hiff|].
  intros e He; apply Hiff; rewrite attempt_cases, He; reflexivity.
Qed.

Lemma X7_witness :
  fst (perform unreachable demoSession (GetDropletsByTag "foo bar") newWorld) = Pending.
Proof.
  apply (proj2 (X7_operations_hang_with_their_request unreachable demoSession
                  (GetDropletsByTag "foo bar") newWorld)
               (AxiosError "getaddrinfo ENOTFOUND api.digitalocean.com")).
  reflexivity.
Defined.

(** ** The creation loop, in general *)

Lemma retries_timers (call : HttpCall) (k : nat) :
  length (filter isTimer (retries call k)) = k /\
  length (filter isHttp (retries call k)) = k.
Proof.
  unfold retries; induction k as [|k [IH1 IH2]]; [split; reflexivity|].
  cbn; now rewrite IH1, IH2.
Qed.

Lemma retries_timeouts (call : HttpCall) (k : nat) :
  Forall (fun ev => isTimer ev = true -> ev = EvSetTimeout 5000) (retries call k).
Proof.
  unfold retries; induction k as [|k IH]; cbn; [constructor|].
  constructor; [discriminate|]; constructor; [reflexivity | exact IH].
Qed.

Section Outcome.

Variable axios : nat -> HttpCall -> AxiosResult.
Variable session : RestApiSession.
Variables dropletName region : string.
Variable keyId : JsValue.
Variable dropletSpec : DigitalOceanDropletSpecification.

Local Abbreviation create := (createCall session dropletName region keyId dropletSpec).

Local Abbreviation loop fuel requestCount w :=
  (makeRequestRecursive axios session fuel dropletName region keyId dropletSpec
                        requestCount w).

(** A finished loop, read backwards: some requests failed with a
    "finalizing" message below the bound, and the loop ended as the request
    after them did. *)
Lemma loop_outcome (fuel : nat) :
  forall (requestCount : Z) (w : World) (r : Promise JsValue) (w' : World),
    loop fuel requestCount w = Some (r, w') ->
    exists k,
      (forall i, (i < k)%nat -> failsFinalizing axios (issued w + i) create) /\
      (k = 0%nat \/ requestCount + Z.of_nat k < MAX_REQUESTS) /\
      r = attempt axios (issued w + k) create /\
      stops (requestCount + Z.of_nat k) r /\
      issued w' = S (issued w + k) /\
      effects (trace w') = (effects (trace w) ++ retries create k ++ [EvHttp create])%list.
Proof.
  induction fuel as [|fuel IH]; intros requestCount w r w' Hrun; [discriminate|].
  rewrite loop_unfold in Hrun.
  assert (Hdone : stops requestCount (attempt axios (issued w) create) ->
                  Some (attempt axios (issued w) create,
                        afterCreateRequest axios session dropletName region keyId
                                           dropletSpec requestCount w) = Some (r, w') ->
                  exists k,
                    (forall i, (i < k)%nat -> failsFinalizing axios (issued w + i) create) /\
                    (k = 0%nat \/ requestCount + Z.of_nat k < MAX_REQUESTS) /\
                    r = attempt axios (issued w + k) create /\
                    stops (requestCount + Z.of_nat k) r /\
                    issued w' = S (issued w + k) /\
                    effects (trace w') =
                      (effects (trace w) ++ retries create k ++ [EvHttp create])%list).
  { intros Hstop Hp; injection Hp as <- <-; exists 0%nat.
    rewrite afterRequest_issued, afterRequest_effects, !Nat.add_0_r, Z.add_0_r.
    repeat split; auto; intros i Hi; lia. }
  destruct (attempt axios (issued w) create) as [v|e|] eqn:Hatt;
    try (apply Hdone; [exact I | exact Hrun]).
  destruct (mentionsFinalizing e) eqn:Hfin; cbn [andb] in Hrun.
  - destruct (requestCount + 1 <? MAX_REQUESTS) eqn:Hlt.
    + apply Z.ltb_lt in Hlt.
      apply IH in Hrun as (k & Hfail & Hbound & Hr & Hstop & Hi & He).
      unfold emit in Hfail, Hr, Hi, He; cbn [issued trace] in Hfail, Hr, Hi, He.
      rewrite afterRequest_issued in Hfail, Hr, Hi.
      rewrite effects_app, afterRequest_effects in He; cbn in He.
      exists (S k); repeat split.
      * intros [|i] Hlt'.
        -- rewrite Nat.add_0_r; exists e; split; [exact Hatt|].
           now apply mentionsFinalizing_spec.
        -- replace (issued w + S i)%nat with (S (issued w) + i)%nat by lia.
           apply Hfail; lia.
      * right; destruct Hbound as [->|Hb]; lia.
      * rewrite Hr; f_equal; lia.
      * replace (requestCount + Z.of_nat (S k)) with (requestCount + 1 + Z.of_nat k) by lia.
        exact Hstop.
      * rewrite Hi; lia.
      * rewrite He, <- !app_assoc; reflexivity.
    + apply Hdone; [|exact Hrun].
      right; apply Z.ltb_ge in Hlt; lia.
  - apply Hdone; [now left | exact Hrun].
Qed.

End Outcome.

(** X8: with the library as the program calls it, when the provider
    answers the registration with a status 200..299 and a body whose
    [ssh_key] has an [id], and the creation request with a status
    200..299, [createDroplet] resolves with the body of that second answer
    (the empty object when the body is falsy) after exactly two requests
    and no timer: the registration of the sanitised name with the public
    key, then the creation of a droplet of that name in the given region,
    with the size, image, install command and tags of the specification,
    the registered key as its only key, and IPv6 on. *)
Theorem X8_createDroplet_succeeds_in_two_requests
        server session displayName region publicKeyForSSH dropletSpec w
        status1 response sshKey keyId status2 body :
  server (issued w)
         (wireKeyCall session (makeValidDropletName displayName) publicKeyForSSH)
    = Answer status1 response ->
  200 <= status1 < 300 ->
  truthy response = true ->
  getProp response "ssh_key" = inr sshKey ->
  getProp sshKey "id" = inr keyId ->
  server (S (issued w))
         (wireCreateCall session (makeValidDropletName displayName) region keyId
                         (installCommand dropletSpec) (size dropletSpec)
                         (image dropletSpec) (tags dropletSpec))
    = Answer status2 body ->
  200 <= status2 < 300 ->
  exists w',
    createDroplet (axiosDefault server) session displayName region publicKeyForSSH
                  dropletSpec w
      = Some (Fulfilled (if truthy body then body else JObj []), w') /\
    issued w' = (issued w + 2)%nat /\
    effects (trace w') =
      (effects (trace w) ++
       [EvHttp (wireKeyCall session (makeValidDropletName displayName) publicKeyForSSH);
        EvHttp (wireCreateCall session (makeValidDropletName displayName) region keyId
                               (installCommand dropletSpec) (size dropletSpec)
                               (image dropletSpec) (tags dropletSpec))])%list.
Proof.
  intros Hs1 Hr1 Ht Hssh Hid Hs2 Hr2.
  change (wireKeyCall session (makeValidDropletName displayName) publicKeyForSSH)
    with (keyCall session (makeValidDropletName displayName) publicKeyForSSH) in *.
  change (wireCreateCall session (makeValidDropletName displayName) region keyId
                         (installCommand dropletSpec) (size dropletSpec)
                         (image dropletSpec) (tags dropletSpec))
    with (createCall session (makeValidDropletName displayName) region keyId dropletSpec)
    in *.
  assert (Hkey : attempt (axiosDefault server) (issued w)
                         (keyCall session (makeValidDropletName displayName) publicKeyForSSH)
                 = Fulfilled response).
  { destruct (attempt_default server (issued w)
                (keyCall session (makeValidDropletName displayName) publicKeyForSSH))
      as [(s & b & Hs & _ & Hatt)|(Hout & _)].
    - rewrite Hs1 in Hs; injection Hs as <- <-; now rewrite Hatt, Ht.
    - specialize (Hout status1 response Hs1); lia. }
  destruct (createDroplet_registered (axiosDefault server) session displayName region
              publicKeyForSSH dropletSpec w response sshKey keyId Hkey Hssh Hid)
    as (w1 & Hrun & Hi1 & He1).
  assert (Hcreate : attempt (axiosDefault server) (issued w1 + 0)
                            (createCall session (makeValidDropletName displayName) region
                                        keyId dropletSpec)
                    = Fulfilled (if truthy body then body else JObj [])).
  { rewrite Hi1, Nat.add_0_r.
    destruct (attempt_default server (S (issued w))
                (createCall session (makeValidDropletName displayName) region keyId
                            dropletSpec))
      as [(s & b & Hs & _ & Hatt)|(Hout & _)].
    - rewrite Hs2 in Hs; injection Hs as <- <-; exact Hatt.
    - specialize (Hout status2 body Hs2); lia. }
  destruct (makeCreateDropletRequest_runs (axiosDefault server) session
              (makeValidDropletName displayName) region keyId dropletSpec 0 w1)
    as (w' & Hloop & Hi' & He').
  - lia.
  - intros i Hi; lia.
  - rewrite Hcreate; exact I.
  - rewrite Hcreate in Hloop.
    exists w'; split; [now rewrite Hrun | split; [lia|]].
    rewrite He', He1, <- app_assoc; reflexivity.
Qed.

Lemma X8_witness :
  exists w',
    createDroplet (axiosDefault (served [keyRegistered; dropletCreated] notFound))
                  demoSession "My Node! #1" "nyc3" "ssh-rsa AAAA" demoSpec newWorld
      = Some (Fulfilled (JObj [("droplet", JObj [("id", JNum 7)])]), w') /\
    issued w' = 2%nat /\
    effects (trace w') = [EvHttp demoKeyCall; EvHttp demoCreateCall].
Proof.
  apply (X8_createDroplet_succeeds_in_two_requests
           (served [keyRegistered; dropletCreated] notFound)
           demoSession "My Node! #1" "nyc3" "ssh-rsa AAAA" demoSpec newWorld
           201 (JObj [("ssh_key", JObj [("id", JNum 42)])]) (JObj [("id", JNum 42)])
           (JNum 42) 202 (JObj [("droplet", JObj [("id", JNum 7)])]));
    try reflexivity; lia.
Defined.



Lemma getProp_throws_TypeError (v : JsValue) (key : string) (e : JsError) :
  getProp v key = inl e -> exists text, e = TypeError text.
Proof. destruct v; cbn; intros H; try discriminate; injection H as <-; eauto. Qed.

(** X3: with the library as the program calls it, [createDroplet] never
    retries.  Whatever the provider answers, the run sends the
    registration request and at most one creation request, and sets no
    timer; the promise rejects only with the [TypeError] of reading the
    key out of a registration response without [ssh_key], in which case no
    creation request was sent. *)
Theorem X3_createDroplet_never_retries
        server session displayName region publicKeyForSSH dropletSpec w :
  exists r w' sent,
    createDroplet (axiosDefault server) session displayName region publicKeyForSSH
                  dropletSpec w = Some (r, w') /\
    effects (trace w') = (effects (trace w) ++ sent)%list /\
    (sent = [EvHttp (wireKeyCall session (makeValidDropletName displayName)
                                 publicKeyForSSH)] \/
     exists keyId,
       sent = [EvHttp (wireKeyCall session (makeValidDropletName displayName)
                                   publicKeyForSSH);
               EvHttp (wireCreateCall session (makeValidDropletName displayName) region
                                      keyId (installCommand dropletSpec)
                                      (size dropletSpec) (image dropletSpec)
                                      (tags dropletSpec))] /\
       forall e, r <> Rejected e) /\
    (forall e, r = Rejected e -> exists text, e = TypeError text).
Proof.
  destruct (createDroplet_total (axiosDefault server) session displayName region
                                publicKeyForSSH dropletSpec w) as ([r w'] & Hrun).
  pose proof Hrun as Hrun0.
  unfold createDroplet in Hrun.
  set (w0 := emit [EvConsole Log [LText "PUBLICK KEY"; LText publicKeyForSSH]] w) in Hrun.
  pose proof (registerKey_world (axiosDefault server) session
                (makeValidDropletName displayName) publicKeyForSSH w0) as [Hi He].
  pose proof (registerKey_result (axiosDefault server) session
                (makeValidDropletName displayName) publicKeyForSSH w0) as Hr.
  assert (He0 : effects (trace w0) = effects (trace w)).
  { unfold w0, emit; cbn [trace]; rewrite effects_app; cbn; apply app_nil_r. }
  rewrite He0 in He.
  destruct (registerKey_ (axiosDefault server) session _ publicKeyForSSH w0)
    as [[keyId|e|] w1]; cbn [fst snd] in Hi, He, Hr.
  - unfold makeCreateDropletRequest in Hrun.
    apply loop_outcome in Hrun as (k & Hfail & _ & Hlast & _ & _ & He').
    assert (k = 0%nat) as ->.
    { destruct k as [|k]; [reflexivity|].
      destruct (Hfail 0%nat ltac:(lia)) as (e & Hatt & _).
      now apply attempt_default_never_rejects in Hatt. }
    assert (Hnot : forall e, r <> Rejected e)
      by (intros e; rewrite Hlast; apply attempt_default_never_rejects).
    exists r, w', [EvHttp (keyCall session (makeValidDropletName displayName) publicKeyForSSH);
                   EvHttp (createCall session (makeValidDropletName displayName) region
                                      keyId dropletSpec)].
    split; [exact Hrun0|split; [|split]].
    + rewrite He', He, <- app_assoc; reflexivity.
    + right; exists keyId; split; [reflexivity | exact Hnot].
    + intros e Hrej; now apply Hnot in Hrej.
  - injection Hrun as <- <-.
    exists (Rejected e), w1, [EvHttp (keyCall session (makeValidDropletName displayName)
                                              publicKeyForSSH)].
    split; [exact Hrun0|split; [exact He|split; [now left|]]].
    intros e' He'; injection He' as <-.
    destruct (attempt (axiosDefault server) (issued w0) _) as [response|x|] eqn:Hatt.
    + destruct (getProp response "ssh_key") as [x|sshKey] eqn:Hssh.
      * injection Hr as ->; now apply getProp_throws_TypeError in Hssh.
      * destruct (getProp sshKey "id") as [x|id] eqn:Hid; [|discriminate].
        injection Hr as ->; now apply getProp_throws_TypeError in Hid.
    + now apply attempt_default_never_rejects in Hatt.
    + discriminate.
  - injection Hrun as <- <-.
    exists Pending, w1, [EvHttp (keyCall session (makeValidDropletName displayName)
                                         publicKeyForSSH)].
    split; [exact Hrun0|split; [exact He|split; [now left|discriminate]]].
Qed.

Section Bound.

Variable axios : nat -> HttpCall -> AxiosResult.
Variable session : RestApiSession.
Variables displayName region publicKeyForSSH : string.
Variable dropletSpec : DigitalOceanDropletSpecification.

(** What any [createDroplet] adds to the history. *)
Lemma createDroplet_sent (w : World) (r : Promise JsValue) (w' : World) :
  createDroplet axios session displayName region publicKeyForSSH dropletSpec w
    = Some (r, w') ->
  exists sent,
    effects (trace w') = (effects (trace w) ++ sent)%list /\
    issued w' = (issued w + length (filter isHttp sent))%nat /\
    (length (filter isHttp sent) <= 11)%nat /\
    (length (filter isTimer sent) <= 9)%nat.
Proof.
  unfold createDroplet.
  set (w0 := emit [EvConsole Log [LText "PUBLICK KEY"; LText publicKeyForSSH]] w).
  pose proof (registerKey_world axios session (makeValidDropletName displayName)
                                publicKeyForSSH w0) as [Hi He].
  assert (He0 : effects (trace w0) = effects (trace w)).
  { unfold w0, emit; cbn [trace]; rewrite effects_app; cbn; apply app_nil_r. }
  change (issued w0) with (issued w) in Hi; rewrite He0 in He.
  destruct (registerKey_ axios session _ publicKeyForSSH w0) as [[keyId|e|] w1];
    cbn [snd] in Hi, He; intros Hrun.
  - unfold makeCreateDropletRequest in Hrun.
    apply loop_outcome in Hrun as (k & _ & Hbound & _ & _ & Hi' & He').
    pose proof (retries_timers
                  (createCall session (makeValidDropletName displayName) region keyId
                              dropletSpec) k) as [Ht Hh].
    eexists; split; [rewrite He', He, <- app_assoc; reflexivity|].
    cbn [app filter isHttp isTimer length].
    rewrite !filter_app, !length_app, Ht, Hh; cbn.
    unfold MAX_REQUESTS in Hbound; repeat split; lia.
  - injection Hrun as _ <-; eexists; split; [exact He|]; cbn; repeat split; lia.
  - injection Hrun as _ <-; eexists; split; [exact He|]; cbn; repeat split; lia.
Qed.

End Bound.

(** X10: whatever the HTTP library answers, the run of [createDroplet]
    is defined (ten turns of the loop are always enough) and issues at
    most eleven requests (the registration and at most ten creation
    requests) and sets at most nine timers, each of 5000 ms.  Nothing is
    said of the promise, which may never settle. *)
Theorem X10_createDroplet_bounded
        axios session displayName region publicKeyForSSH dropletSpec w :
  exists r w' sent,
    createDroplet axios session displayName region publicKeyForSSH dropletSpec w
      = Some (r, w') /\
    effects (trace w') = (effects (trace w) ++ sent)%list /\
    (issued w' <= issued w + 11)%nat /\
    (length (filter isHttp sent) <= 11)%nat /\
    (length (filter isTimer sent) <= 9)%nat /\
    Forall (fun ev => isTimer ev = true -> ev = EvSetTimeout 5000) sent.
Proof.
  destruct (createDroplet_total axios session displayName region publicKeyForSSH
                                dropletSpec w) as ([r w'] & Hrun).
  destruct (createDroplet_sent axios session displayName region publicKeyForSSH
                               dropletSpec w r w' Hrun) as (sent & He & Hi & Hh & Ht).
  exists r, w', sent; repeat split; try assumption; [lia|].
  apply createDroplet_shape in Hrun as [He'|(keyId & k & He')];
    rewrite He' in He; apply app_inv_head in He; subst sent.
  - repeat constructor; discriminate.
  - constructor; [discriminate|].
    apply Forall_app; split; [|repeat constructor; discriminate].
    apply retries_timeouts.
Qed.

(** X11: a registration that resolves with a response without [ssh_key]
    makes [createDroplet] reject with the [TypeError] of reading [id] from
    [undefined], and no creation request is sent; any response that has
    an [ssh_key] leads to a creation request whose only key is that
    member's [id], [undefined] included. *)
Theorem X11_registration_response_without_key
        axios session displayName region publicKeyForSSH dropletSpec w response :
  attempt axios (issued w)
          (keyCall session (makeValidDropletName displayName) publicKeyForSSH)
    = Fulfilled response ->
  (member "ssh_key" response = JUndefined ->
   exists w',
     createDroplet axios session displayName region publicKeyForSSH dropletSpec w
       = Some (Rejected (TypeError "Cannot read properties of undefined (reading 'id')"), w') /\
     issued w' = S (issued w) /\
     effects (trace w') =
       (effects (trace w) ++
        [EvHttp (keyCall session (makeValidDropletName displayName) publicKeyForSSH)])%list) /\
  (nullish (member "ssh_key" response) = false ->
   forall r w',
     createDroplet axios session displayName region publicKeyForSSH dropletSpec w
       = Some (r, w') ->
     exists rest,
       effects (trace w') =
         (effects (trace w) ++
          EvHttp (keyCall session (makeValidDropletName displayName) publicKeyForSSH) ::
          EvHttp (createCall session (makeValidDropletName displayName) region
                             (member "id" (member "ssh_key" response)) dropletSpec) ::
          rest)%list).
Proof.
  intros Hkey.
  pose proof (attempt_fulfilled_truthy _ _ _ _ Hkey) as Ht.
  apply truthy_not_nullish in Ht.
  pose proof (getProp_not_nullish response "ssh_key" Ht) as Hssh.
  split.
  - intros Hnone; unfold createDroplet.
    set (w0 := emit [EvConsole Log [LText "PUBLICK KEY"; LText publicKeyForSSH]] w).
    pose proof (registerKey_result axios session (makeValidDropletName displayName)
                                   publicKeyForSSH w0) as Hr.
    pose proof (registerKey_world axios session (makeValidDropletName displayName)
                                  publicKeyForSSH w0) as [Hi He].
    change (issued w0) with (issued w) in Hr, Hi.
    rewrite Hkey, Hssh, Hnone in Hr; cbn in Hr.
    destruct (registerKey_ axios session _ publicKeyForSSH w0) as [p w1].
    cbn [fst snd] in *; subst p; exists w1; repeat split; try assumption.
    rewrite He; unfold w0, emit; cbn [trace]; rewrite effects_app; cbn.
    now rewrite app_nil_r.
  - intros Hsome r w' Hrun.
    destruct (createDroplet_registered axios session displayName region publicKeyForSSH
                dropletSpec w response _ _ Hkey Hssh
                (getProp_not_nullish _ "id" Hsome)) as (w1 & Hreg & _ & He1).
    rewrite Hreg in Hrun; unfold makeCreateDropletRequest in Hrun.
    apply loop_outcome in Hrun as (k & _ & _ & _ & _ & _ & He).
    rewrite He, He1, <- app_assoc.
    destruct k as [|k]; [exists [] | eexists]; reflexivity.
Qed.

Lemma X11_witness :
  (exists w',
      createDroplet (answering 200 (JObj [("id", JNum 42)])) demoSession
                    "n" "nyc3" "ssh-rsa AAAA" demoSpec newWorld
        = Some (Rejected (TypeError "Cannot read properties of undefined (reading 'id')"), w') /\
      issued w' = 1%nat /\
      effects (trace w') = [EvHttp (keyCall demoSession "n" "ssh-rsa AAAA")]) /\
  match createDroplet (answering 200 (JObj [("ssh_key", JObj [])])) demoSession
                      "n" "nyc3" "ssh-rsa AAAA" demoSpec newWorld with
  | Some (_, w') =>
      exists rest,
        effects (trace w') =
          EvHttp (keyCall demoSession "n" "ssh-rsa AAAA") ::
          EvHttp (createCall demoSession "n" "nyc3" JUndefined demoSpec) :: rest
  | None => False
  end.
Proof.
  split.
  - apply (proj1 (X11_registration_response_without_key
                    (answering 200 (JObj [("id", JNum 42)])) demoSession
                    "n" "nyc3" "ssh-rsa AAAA" demoSpec newWorld
                    (JObj [("id", JNum 42)]) eq_refl)).
    reflexivity.
  - destruct (createDroplet _ demoSession "n" "nyc3" "ssh-rsa AAAA" demoSpec newWorld)
      as [[r w']|] eqn:Hrun.
    + apply (proj2 (X11_registration_response_without_key
                      (answering 200 (JObj [("ssh_key", JObj [])])) demoSession
                      "n" "nyc3" "ssh-rsa AAAA" demoSpec newWorld
                      (JObj [("ssh_key", JObj [])]) eq_refl) eq_refl r w' Hrun).
    + vm_compute in Hrun; discriminate.
Defined.

(** ** More on names and tags *)

Lemma makeValidDropletName_app (a b : string) :
  makeValidDropletName (a ++ b) = makeValidDropletName a ++ makeValidDropletName b.
Proof.
  induction a as [|c a IH]; [reflexivity|].
  cbn [append]; rewrite !makeValidDropletName_cons, IH.
  destruct (allowedNameChar c); reflexivity.
Qed.

Lemma makeValidDropletName_length (s : string) :
  (String.length (makeValidDropletName s) <= String.length s)%nat.
Proof.
  induction s as [|c s IH]; [apply Nat.le_refl|].
  rewrite makeValidDropletName_cons; destruct (allowedNameChar c); cbn; lia.
Qed.

(** X13: sanitising works character by character: the sanitised
    concatenation is the concatenation of the sanitised parts, and the
    result is never longer than the input. *)
Theorem X13_sanitize_is_a_morphism :
  (forall a b,
      makeValidDropletName (a ++ b) = makeValidDropletName a ++ makeValidDropletName b) /\
  (forall s, (String.length (makeValidDropletName s) <= String.length s)%nat).
Proof. split; [apply makeValidDropletName_app | apply makeValidDropletName_length]. Qed.

(** X14: the names that sanitising leaves unchanged are exactly those made
    of letters, digits and hyphens; and the result is empty exactly when
    the input has no such character, the empty name being then what
    [createDroplet] sends on. *)
Theorem X14_sanitize_fixed_points_and_empty_names (s : string) :
  (makeValidDropletName s = s <->
   forall c, In c (list_ascii_of_string s) -> allowedNameChar c = true) /\
  (makeValidDropletName s = "" <->
   forall c, In c (list_ascii_of_string s) -> allowedNameChar c = false).
Proof.
  split; split.
  - intros H c Hc; rewrite <- H in Hc; now apply makeValidDropletName_chars in Hc.
  - apply makeValidDropletName_fixes.
  - induction s as [|x s IH]; [intros _ c []|].
    rewrite makeValidDropletName_cons.
    destruct (allowedNameChar x) eqn:Hx; [discriminate|].
    intros H c [<-|Hc]; [exact Hx | now apply IH].
  - induction s as [|x s IH]; [reflexivity|]; intros H.
    rewrite makeValidDropletName_cons, (H x (or_introl eq_refl)).
    apply IH; intros c Hc; apply H; now right.
Qed.



(** * The value stream *)

Import ValueStream.

Local Open Scope nat_scope.
Local Open Scope list_scope.

(** ** Promises and wakers *)

Lemma nth_resolve (p : nat) (flag : bool) (ps : list (option bool)) (q : nat) :
  nth_error (resolve p flag ps) q =
  match nth_error ps q with
  | Some None => if q =? p then Some (Some flag) else Some None
  | x => x
  end.
Proof.
  revert p q; induction ps as [|x ps IH]; intros p q.
  - destruct q; reflexivity.
  - destruct p as [|p], q as [|q]; cbn.
    + destruct x; reflexivity.
    + destruct (nth_error ps q) as [[b|]|]; reflexivity.
    + destruct x; reflexivity.
    + apply IH.
Qed.

Lemma nth_wakeAll (ws : list nat) (flag : bool) :
  forall (ps : list (option bool)) (q : nat),
    nth_error (wakeAll ws flag ps) q =
    match nth_error ps q with
    | Some None => if existsb (Nat.eqb q) ws then Some (Some flag) else Some None
    | x => x
    end.
Proof.
  unfold wakeAll; induction ws as [|w ws IH]; intros ps q; cbn.
  - destruct (nth_error ps q) as [[b|]|]; reflexivity.
  - rewrite IH, nth_resolve.
    destruct (nth_error ps q) as [[b|]|]; try reflexivity.
    destruct (q =? w); cbn; reflexivity.
Qed.

Lemma existsb_eqb_In (q : nat) (ws : list nat) :
  existsb (Nat.eqb q) ws = true <-> In q ws.
Proof.
  rewrite existsb_exists; split.
  - intros (x & Hx & Heq); apply Nat.eqb_eq in Heq; now subst.
  - intros H; exists q; split; [exact H | apply Nat.eqb_refl].
Qed.

Lemma nth_error_snoc_old {A : Type} (l : list A) (x : A) (q : nat) :
  nth_error l q <> None -> nth_error (l ++ [x]) q = nth_error l q.
Proof.
  intros H; apply nth_error_app1; now apply nth_error_Some.
Qed.

Lemma nth_error_snoc {A : Type} (l : list A) (x : A) (q : nat) :
  nth_error (l ++ [x]) q =
  if q <? length l then nth_error l q
  else if q =? length l then Some x else None.
Proof.
  destruct (q <? length l) eqn:Hlt.
  - apply Nat.ltb_lt in Hlt; now apply nth_error_app1.
  - apply Nat.ltb_ge in Hlt; rewrite nth_error_app2 by exact Hlt.
    destruct (q =? length l) eqn:Heq.
    + apply Nat.eqb_eq in Heq; subst; now rewrite Nat.sub_diag.
    + apply Nat.eqb_neq in Heq.
      destruct (q - length l) as [|[|n]] eqn:Hd; cbn; try reflexivity; lia.
Qed.

Lemma latest_snoc {T : Type} (l : list T) (x : T) :
  last (map Some (l ++ [x])) None = Some x.
Proof. rewrite map_app; cbn; apply last_last. Qed.

Lemma latest_inv {T : Type} (w : Watcher T) (x : T) :
  latest w = Some x -> exists init, seen w = init ++ [x].
Proof.
  unfold latest; destruct (seen w) as [|y l] using rev_ind; cbn; [discriminate|].
  rewrite latest_snoc; intros H; injection H as <-; now exists l.
Qed.

Lemma nth_error_update {A : Type} (i j : nat) (x : A) (l : list A) :
  nth_error (update i x l) j =
  if j =? i then (match nth_error l j with Some _ => Some x | None => None end)
  else nth_error l j.
Proof.
  revert i j; induction l as [|y l IH]; intros i j.
  - destruct j, i; cbn; try reflexivity; destruct (j =? i); reflexivity.
  - destruct i as [|i], j as [|j]; cbn; try reflexivity; apply IH.
Qed.

Lemma Forall_update {A : Type} (P : A -> Prop) (i : nat) (x : A) (l : list A) :
  Forall P l -> P x -> Forall P (update i x l).
Proof.
  intros Hl Hx; revert i; induction Hl as [|y l Hy Hl IH]; intros i; cbn; [constructor|].
  destruct i; constructor; auto.
Qed.

Lemma length_update {A : Type} (i : nat) (x : A) (l : list A) :
  length (update i x l) = length l.
Proof. revert i; induction l as [|y l IH]; intros [|i]; cbn; auto. Qed.

(** ** The invariant of a stream and its watchers *)

Section Stream.

Variable T : Type.

Lemma set_open (v : T) (s : Stream T) (ws : list nat) :
  wakers s = Some ws ->
  set v s = inr {| value := v; wakers := Some [];
                   promises := wakeAll ws false (promises s) |}.
Proof. unfold set; now intros ->. Qed.

Lemma no_pending_after_wake (s : Stream T) (ws : list nat) (flag : bool) (p : nat) :
  noLostWaker s -> wakers s = Some ws ->
  nth_error (wakeAll ws flag (promises s)) p <> Some None.
Proof.
  intros Hs Hw; rewrite nth_wakeAll.
  destruct (nth_error (promises s) p) as [[b|]|] eqn:Hp; try discriminate.
  destruct (Hs p Hp) as (ws' & Hw' & Hin); rewrite Hw in Hw'; injection Hw' as <-.
  apply existsb_eqb_In in Hin; rewrite Hin; discriminate.
Qed.

Lemma wokenTrue_was_true (ws : list nat) (ps : list (option bool)) (p : nat) :
  nth_error (wakeAll ws false ps) p = Some (Some true) ->
  nth_error ps p = Some (Some true).
Proof.
  rewrite nth_wakeAll; destruct (nth_error ps p) as [[b|]|]; try (intros H; exact H).
  destruct (existsb (Nat.eqb p) ws); discriminate.
Qed.

Lemma woken_in_range (ws : list nat) (flag : bool) (ps : list (option bool)) (p : nat) :
  nth_error ps p <> None -> nth_error (wakeAll ws flag ps) p <> None.
Proof.
  rewrite nth_wakeAll; destruct (nth_error ps p) as [[b|]|]; try (intros H; exact H).
  destruct (existsb (Nat.eqb p) ws); discriminate.
Qed.

Lemma wellPlaced_set (v : T) (s : Stream T) (ws : list nat) (w : Watcher T) :
  noLostWaker s -> wakers s = Some ws -> wellPlaced s w ->
  wellPlaced {| value := v; wakers := Some [];
                promises := wakeAll ws false (promises s) |} w.
Proof.
  intros Hs Hws; unfold wellPlaced.
  assert (Hopen : isClosed s = false) by (unfold isClosed; now rewrite Hws).
  assert (Hat : forall p,
             nth_error (promises s) p <> None /\
             (pending s p -> latest w = Some (value s)) /\
             (nth_error (promises s) p = Some (Some true) ->
              isClosed s = true /\ latest w = Some (value s)) ->
             nth_error (wakeAll ws false (promises s)) p <> None /\
             (nth_error (wakeAll ws false (promises s)) p = Some None ->
              latest w = Some v) /\
             (nth_error (wakeAll ws false (promises s)) p = Some (Some true) ->
              false = true /\ latest w = Some v)).
  { intros p (Hin & _ & Htrue); split; [now apply woken_in_range | split].
    - intros Hp; exfalso; revert Hp; now apply no_pending_after_wake.
    - intros Hp; apply wokenTrue_was_true in Hp.
      destruct (Htrue Hp); congruence. }
  destruct (position w) as [|p|p| |]; cbn [promises value isClosed wakers]; unfold pending;
    cbn [promises]; auto; intros [Hc _]; congruence.
Qed.

Lemma consistent_set (v : T) (sys : System T) (s' : Stream T) :
  consistent sys -> set v (stream sys) = inr s' ->
  consistent {| stream := s'; watchers := watchers sys |}.
Proof.
  intros [Hs Hw] Hset; unfold set in Hset.
  destruct (wakers (stream sys)) as [ws|] eqn:Hws; [|discriminate].
  injection Hset as <-; split; cbn [stream watchers].
  - intros p Hp; exfalso; revert Hp; unfold pending; cbn [promises].
    now apply no_pending_after_wake.
  - eapply Forall_impl; [|exact Hw]; intros w; now apply wellPlaced_set.
Qed.

Lemma wokenTrue_cases (ws : list nat) (ps : list (option bool)) (p : nat) :
  nth_error (wakeAll ws true ps) p = Some (Some true) ->
  nth_error ps p = Some (Some true) \/ nth_error ps p = Some None.
Proof.
  rewrite nth_wakeAll; destruct (nth_error ps p) as [[b|]|]; auto; discriminate.
Qed.

Lemma wellPlaced_close (s : Stream T) (w : Watcher T) :
  noLostWaker s -> wellPlaced s w -> wellPlaced (close s) w.
Proof.
  intros Hs; unfold close.
  destruct (wakers s) as [ws|] eqn:Hws; [|auto].
  unfold wellPlaced.
  assert (Hopen : isClosed s = false) by (unfold isClosed; now rewrite Hws).
  assert (Hat : forall p,
             nth_error (promises s) p <> None /\
             (pending s p -> latest w = Some (value s)) /\
             (nth_error (promises s) p = Some (Some true) ->
              isClosed s = true /\ latest w = Some (value s)) ->
             nth_error (wakeAll ws true (promises s)) p <> None /\
             (nth_error (wakeAll ws true (promises s)) p = Some None ->
              latest w = Some (value s)) /\
             (nth_error (wakeAll ws true (promises s)) p = Some (Some true) ->
              true = true /\ latest w = Some (value s))).
  { intros p (Hin & Hpend & Htrue); split; [now apply woken_in_range | split].
    - intros Hp; exfalso; revert Hp; now apply no_pending_after_wake.
    - intros Hp; split; [reflexivity|].
      apply wokenTrue_cases in Hp as [Hp|Hp]; [now apply Htrue | now apply Hpend]. }
  destruct (position w) as [|p|p| |]; cbn [promises value isClosed wakers]; unfold pending;
    cbn [promises]; auto; intros [Hc _]; congruence.
Qed.

Lemma consistent_close (sys : System T) :
  consistent sys ->
  consistent {| stream := close (stream sys); watchers := watchers sys |}.
Proof.
  intros [Hs Hw]; split; cbn [stream watchers].
  - unfold close; destruct (wakers (stream sys)) as [ws|] eqn:Hws; [|exact Hs].
    intros p Hp; exfalso; revert Hp; unfold pending; cbn [promises].
    now apply no_pending_after_wake.
  - eapply Forall_impl; [|exact Hw]; intros w; now apply wellPlaced_close.
Qed.

End Stream.

Section Watching.

Variable T : Type.

Lemma nextChange_facts (s : Stream T) :
  fst (nextChange s) = length (promises s) /\
  value (snd (nextChange s)) = value s /\
  isClosed (snd (nextChange s)) = isClosed s /\
  promises (snd (nextChange s)) =
    promises s ++ [if isClosed s then Some true else None].
Proof.
  unfold nextChange, isClosed; destruct (wakers s); cbn; auto.
Qed.

Lemma noLostWaker_nextChange (s : Stream T) :
  noLostWaker s -> noLostWaker (snd (nextChange s)).
Proof.
  intros Hs p; unfold pending, nextChange.
  destruct (wakers s) as [ws|] eqn:Hws; cbn [snd promises wakers];
    rewrite nth_error_snoc.
  - destruct (p <? length (promises s)) eqn:Hlt.
    + intros Hp; destruct (Hs p Hp) as (ws' & Hw' & Hin).
      rewrite Hws in Hw'; injection Hw' as <-.
      exists (ws ++ [length (promises s)]); split; [reflexivity|].
      apply in_or_app; now left.
    + destruct (p =? length (promises s)) eqn:Heq; [|discriminate].
      apply Nat.eqb_eq in Heq; subst p; intros _.
      exists (ws ++ [length (promises s)]); split; [reflexivity|].
      apply in_or_app; right; now left.
  - destruct (p <? length (promises s)) eqn:Hlt.
    + intros Hp; destruct (Hs p Hp) as (ws' & Hw' & _); congruence.
    + destruct (p =? length (promises s)); discriminate.
Qed.

Lemma wellPlaced_nextChange (s : Stream T) (w : Watcher T) :
  wellPlaced s w -> wellPlaced (snd (nextChange s)) w.
Proof.
  destruct (nextChange_facts s) as (_ & Hv & Hc & Hp).
  unfold wellPlaced, pending; rewrite Hv, Hc, Hp.
  destruct (position w) as [|p|p| |]; auto;
    intros (Hin & Hpend & Htrue); rewrite (nth_error_snoc_old _ _ _ Hin); auto.
Qed.

Lemma loopYield_facts (s : Stream T) (w : Watcher T) :
  loopYield s w =
  (snd (nextChange s),
   {| position := AtYield (length (promises s)); seen := seen w ++ [value s] |}).
Proof.
  unfold loopYield.
  destruct (nextChange_facts s) as (Hp & Hv & _).
  destruct (nextChange s) as [p s']; cbn [fst snd] in *; subst p; now rewrite Hv.
Qed.

Lemma wellPlaced_loopYield (s : Stream T) (w : Watcher T) :
  wellPlaced (fst (loopYield s w)) (snd (loopYield s w)).
Proof.
  rewrite loopYield_facts; cbn [fst snd].
  destruct (nextChange_facts s) as (_ & Hv & Hc & Hp).
  unfold wellPlaced, pending, latest; cbn [position seen].
  rewrite Hv, Hc, Hp, latest_snoc, nth_error_snoc, Nat.ltb_irrefl, Nat.eqb_refl.
  split; [discriminate|]; split; [reflexivity|].
  destruct (isClosed s); [auto | discriminate].
Qed.

Lemma next_keeps : keeps (@next T).
Proof.
  intros s w s' w' Hnext Hs Hw; unfold next in Hnext.
  destruct (position w) as [|p|p| |] eqn:Hpos; try discriminate.
  - injection Hnext as Hl.
    pose proof (wellPlaced_loopYield s w) as Hy; rewrite Hl in Hy; cbn [fst snd] in Hy.
    rewrite loopYield_facts in Hl; injection Hl as <- _.
    split; [now apply noLostWaker_nextChange | split; [exact Hy|]].
    intros other; apply wellPlaced_nextChange.
  - injection Hnext as <- <-; split; [exact Hs | split; [|auto]].
    unfold wellPlaced in *; rewrite Hpos in Hw; exact Hw.
  - injection Hnext as <- <-; split; [exact Hs | split; [|auto]].
    unfold wellPlaced in *; rewrite Hpos in Hw; exact Hw.
  - injection Hnext as <- <-; auto.
Qed.

Lemma resume_keeps : keeps (@resume T).
Proof.
  intros s w s' w' Hres Hs Hw; unfold resume in Hres.
  destruct (position w) as [|p|p| |] eqn:Hpos; try discriminate.
  destruct (nth_error (promises s) p) as [[[]|]|] eqn:Hp; try discriminate.
  - injection Hres as <- <-; split; [exact Hs | split; [|auto]].
    unfold wellPlaced in Hw |- *; rewrite Hpos in Hw; cbn [position seen].
    destruct Hw as (_ & _ & Htrue); destruct (Htrue Hp) as (Hc & Hl).
    split; [exact Hc|].
    apply latest_inv in Hl as (init & ->); exists init.
    now rewrite <- app_assoc.
  - injection Hres as Hl.
    pose proof (wellPlaced_loopYield s w) as Hy; rewrite Hl in Hy; cbn [fst snd] in Hy.
    rewrite loopYield_facts in Hl; injection Hl as <- _.
    split; [now apply noLostWaker_nextChange | split; [exact Hy|]].
    intros other; apply wellPlaced_nextChange.
Qed.

Lemma consistent_onWatcher f (i : nat) (sys sys' : System T) :
  keeps f -> consistent sys -> onWatcher f i sys = Some sys' -> consistent sys'.
Proof.
  intros Hf [Hs Hw] Hon; unfold onWatcher in Hon.
  destruct (nth_error (watchers sys) i) as [w|] eqn:Hi; [|discriminate].
  destruct (f (stream sys) w) as [[s' w']|] eqn:Hfw; [|discriminate].
  injection Hon as <-.
  assert (Hwi : wellPlaced (stream sys) w).
  { rewrite Forall_forall in Hw; apply Hw; eapply nth_error_In; eassumption. }
  destruct (Hf _ _ _ _ Hfw Hs Hwi) as (Hs' & Hw' & Hothers).
  split; cbn [stream watchers]; [exact Hs'|].
  apply Forall_update; [|exact Hw'].
  eapply Forall_impl; [|exact Hw]; exact Hothers.
Qed.

Lemma consistent_step (op : Op T) (sys sys' : System T) :
  consistent sys -> step op sys = Some sys' -> consistent sys'.
Proof.
  intros Hc; destruct op as [v| | |i|i]; cbn [step].
  - destruct (set v (stream sys)) as [e|s'] eqn:Hset; [discriminate|].
    intros H; injection H as <-; now apply (consistent_set T v sys s').
  - intros H; injection H as <-; now apply consistent_close.
  - intros H; injection H as <-; destruct Hc as [Hs Hw]; split; [exact Hs|].
    cbn [stream watchers]; apply Forall_app; split; [exact Hw|].
    constructor; [reflexivity | constructor].
  - apply consistent_onWatcher; [apply next_keeps | exact Hc].
  - apply consistent_onWatcher; [apply resume_keeps | exact Hc].
Qed.

Lemma consistent_run (ops : list (Op T)) :
  forall sys, consistent sys -> consistent (run ops sys).
Proof.
  induction ops as [|op ops IH]; intros sys Hc; [exact Hc|]; cbn [run].
  apply IH; destruct (step op sys) as [sys'|] eqn:Hstep; [|exact Hc].
  eapply consistent_step; eassumption.
Qed.

Lemma consistent_initial (v : T) : consistent (initial v).
Proof.
  split; [|constructor].
  intros p Hp; unfold pending in Hp; cbn in Hp; destruct p; discriminate.
Qed.

End Watching.

(** ** What users of a stream can rely on *)

Section Guarantees.

Variable T : Type.

Lemma step_closed (op : Op T) (sys sys' : System T) :
  isClosed (stream sys) = true -> step op sys = Some sys' ->
  isClosed (stream sys') = true /\ value (stream sys') = value (stream sys).
Proof.
  intros Hc.
  assert (Hloop : forall w,
             isClosed (fst (loopYield (stream sys) w)) = true /\
             value (fst (loopYield (stream sys) w)) = value (stream sys)).
  { intros w; rewrite loopYield_facts; cbn [fst].
    destruct (nextChange_facts T (stream sys)) as (_ & Hv & Hcl & _).
    now rewrite Hv, Hcl. }
  destruct op as [v| | |i|i]; cbn [step].
  - unfold set, isClosed in *; destruct (wakers (stream sys)); discriminate.
  - intros H; injection H as <-; cbn [stream].
    unfold isClosed in Hc; unfold close.
    destruct (wakers (stream sys)) eqn:Hw; [discriminate|].
    unfold isClosed; now rewrite Hw.
  - intros H; injection H as <-; auto.
  - unfold onWatcher, next.
    destruct (nth_error (watchers sys) i) as [w|]; [|discriminate].
    destruct (position w) as [|p|p| |]; try discriminate;
      try (intros H; injection H as <-; cbn [stream]; now auto).
    specialize (Hloop w); destruct (loopYield (stream sys) w) as [s1 w1].
    intros H; injection H as <-; exact Hloop.
  - unfold onWatcher, resume.
    destruct (nth_error (watchers sys) i) as [w|]; [|discriminate].
    destruct (position w) as [|p|p| |]; try discriminate.
    destruct (nth_error (promises (stream sys)) p) as [[[]|]|]; try discriminate;
      try (intros H; injection H as <-; cbn [stream]; now auto).
    specialize (Hloop w); destruct (loopYield (stream sys) w) as [s1 w1].
    intros H; injection H as <-; exact Hloop.
Qed.

Lemma run_closed (ops : list (Op T)) :
  forall sys, isClosed (stream sys) = true ->
              isClosed (stream (run ops sys)) = true /\
              value (stream (run ops sys)) = value (stream sys).
Proof.
  induction ops as [|op ops IH]; intros sys Hc; [auto|]; cbn [run].
  destruct (step op sys) as [sys'|] eqn:Hstep; [|now apply IH].
  destruct (step_closed op sys sys' Hc Hstep) as [Hc' Hv'].
  destruct (IH sys' Hc') as [H1 H2]; split; [exact H1 | congruence].
Qed.

End Guarantees.

(** X16: a closed stream is frozen: [set] throws "Cannot change a closed
    value stream", [close] does nothing, and whatever is attempted
    afterwards, by anyone, the stream stays closed with the same value. *)
Theorem X16_closed_stream_is_frozen (T : Type) (s : Stream T) (ws : list (Watcher T))
        (ops : list (Op T)) :
  isClosed s = true ->
  (forall v, set v s = inl (Error "Cannot change a closed value stream")) /\
  close s = s /\
  isClosed (stream (run ops {| stream := s; watchers := ws |})) = true /\
  get (stream (run ops {| stream := s; watchers := ws |})) = get s.
Proof.
  intros Hc; split; [|split].
  - intros v; unfold set, isClosed in *; destruct (wakers s); [discriminate | reflexivity].
  - unfold close, isClosed in *; destruct (wakers s); [discriminate | reflexivity].
  - apply (run_closed T ops {| stream := s; watchers := ws |} Hc).
Qed.

Lemma X16_witness :
  (forall v, set v (close (create 7%Z)) = inl (Error "Cannot change a closed value stream")) /\
  close (close (create 7%Z)) = close (create 7%Z) /\
  isClosed (stream (run [OpSet 8%Z; OpWatch; OpNext 0; OpNext 0; OpResume 0; OpSet 9%Z]
                        {| stream := close (create 7%Z); watchers := [] |})) = true /\
  get (stream (run [OpSet 8%Z; OpWatch; OpNext 0; OpNext 0; OpResume 0; OpSet 9%Z]
                   {| stream := close (create 7%Z); watchers := [] |})) = 7%Z.
Proof.
  apply (X16_closed_stream_is_frozen Z (close (create 7%Z)) []
           [OpSet 8%Z; OpWatch; OpNext 0; OpNext 0; OpResume 0; OpSet 9%Z]).
  reflexivity.
Defined.

(** X17: no wake-up is lost.  In every state a stream can reach, a pending
    promise of [nextChange] has its waker registered on an open stream, so
    the next [set] or [close] leaves no promise pending. *)
Theorem X17_no_lost_wakeup (T : Type) (v0 : T) (ops : list (Op T)) :
  (forall p, pending (stream (run ops (initial v0))) p ->
             exists ws, wakers (stream (run ops (initial v0))) = Some ws /\ In p ws) /\
  (forall v s', set v (stream (run ops (initial v0))) = inr s' ->
                forall p, ~ pending s' p) /\
  (forall p, ~ pending (close (stream (run ops (initial v0)))) p).
Proof.
  pose proof (consistent_run T ops _ (consistent_initial T v0)) as [Hs _].
  split; [exact Hs | split].
  - intros v s' Hset p; unfold set in Hset.
    destruct (wakers (stream (run ops (initial v0)))) as [ws|] eqn:Hws; [|discriminate].
    injection Hset as <-; unfold pending; cbn [promises].
    now apply no_pending_after_wake.
  - intros p; unfold close.
    destruct (wakers (stream (run ops (initial v0)))) as [ws|] eqn:Hws.
    + unfold pending; cbn [promises]; now apply no_pending_after_wake.
    + intros Hp; destruct (Hs p Hp) as (ws & Hw & _); congruence.
Qed.

(** X18: a watcher never waits while out of date.  In every reachable
    state, a watcher suspended on a pending promise has seen, as its
    latest value, the current value of the stream, which is open; and a
    watcher at its [await] whose promise is resolved can go on. *)
Theorem X18_waiting_watcher_is_up_to_date (T : Type) (v0 : T) (ops : list (Op T))
        (i : nat) (w : Watcher T) (p : nat) :
  nth_error (watchers (run ops (initial v0))) i = Some w ->
  position w = AtYield p \/ position w = Awaiting p ->
  (pending (stream (run ops (initial v0))) p ->
   latest w = Some (get (stream (run ops (initial v0)))) /\
   isClosed (stream (run ops (initial v0))) = false) /\
  (position w = Awaiting p ->
   ~ pending (stream (run ops (initial v0))) p ->
   exists sys', step (OpResume i) (run ops (initial v0)) = Some sys').
Proof.
  intros Hi Hpos.
  pose proof (consistent_run T ops _ (consistent_initial T v0)) as [Hs Hw].
  assert (Hwp : wellPlaced (stream (run ops (initial v0))) w).
  { rewrite Forall_forall in Hw; apply Hw; eapply nth_error_In; eassumption. }
  assert (Hat : nth_error (promises (stream (run ops (initial v0)))) p <> None /\
                (pending (stream (run ops (initial v0))) p ->
                 latest w = Some (value (stream (run ops (initial v0)))))).
  { unfold wellPlaced in Hwp; destruct Hpos as [Hpos|Hpos]; rewrite Hpos in Hwp; tauto. }
  destruct Hat as [Hin Hpend]; split.
  - intros Hp; split; [now apply Hpend|].
    destruct (Hs p Hp) as (ws & Hws & _); unfold isClosed; now rewrite Hws.
  - intros Haw Hnp; cbn [step]; unfold onWatcher, resume; rewrite Hi, Haw.
    unfold pending in Hnp.
    destruct (nth_error (promises (stream (run ops (initial v0)))) p) as [[[]|]|];
      try congruence; [eauto|].
    destruct (loopYield (stream (run ops (initial v0))) w); eauto.
Qed.

Lemma X18_witness :
  (pending (stream (run [OpWatch; OpNext 0; OpSet 2%Z; OpNext 0; OpResume 0; OpNext 0]
                        (initial 1%Z))) 1 ->
   latest {| position := Awaiting 1; seen := [1%Z; 2%Z] |} = Some 2%Z /\
   isClosed (stream (run [OpWatch; OpNext 0; OpSet 2%Z; OpNext 0; OpResume 0; OpNext 0]
                         (initial 1%Z))) = false) /\
  pending (stream (run [OpWatch; OpNext 0; OpSet 2%Z; OpNext 0; OpResume 0; OpNext 0]
                       (initial 1%Z))) 1.
Proof.
  split; [|reflexivity].
  apply (X18_waiting_watcher_is_up_to_date Z 1%Z
           [OpWatch; OpNext 0; OpSet 2%Z; OpNext 0; OpResume 0; OpNext 0]
           0 {| position := Awaiting 1; seen := [1%Z; 2%Z] |} 1);
    [reflexivity | now right].
Defined.

Section Delivery.

Variable T : Type.

Lemma run_app (a b : list (Op T)) :
  forall sys, run (a ++ b) sys = run b (run a sys).
Proof. induction a as [|op a IH]; intros sys; cbn; [reflexivity | apply IH]. Qed.

Lemma last_cons (v d : T) (vs : list T) : last (v :: vs) d = last vs v.
Proof.
  revert v d; induction vs as [|x vs IH]; intros v d; [reflexivity|].
  change (last (v :: x :: vs) d) with (last (x :: vs) d).
  now rewrite !IH.
Qed.

(** Changes on an open stream: the watchers are untouched, the stream
    stays open and holds the last value. *)
Lemma run_sets (vs : list T) :
  forall sys,
    isClosed (stream sys) = false ->
    watchers (run (map OpSet vs) sys) = watchers sys /\
    isClosed (stream (run (map OpSet vs) sys)) = false /\
    value (stream (run (map OpSet vs) sys)) = last vs (value (stream sys)).
Proof.
  induction vs as [|v vs IH]; intros sys Hopen; [auto|].
  cbn [map run step]; unfold set.
  destruct (wakers (stream sys)) as [ws|] eqn:Hws;
    [|unfold isClosed in Hopen; rewrite Hws in Hopen; discriminate].
  destruct (IH {| stream := {| value := v; wakers := Some [];
                               promises := wakeAll ws false (promises (stream sys)) |};
                  watchers := watchers sys |} eq_refl) as (Hw & Ho & Hv).
  split; [exact Hw | split; [exact Ho|]].
  rewrite Hv; cbn [stream value]; symmetry; apply last_cons.
Qed.

Lemma nth_error_update_same (i : nat) (x : Watcher T) (l : list (Watcher T)) :
  nth_error l i <> None -> nth_error (update i x l) i = Some x.
Proof.
  rewrite nth_error_update, Nat.eqb_refl.
  destruct (nth_error l i); [reflexivity | congruence].
Qed.

(** One move of watcher [i] inside a system, seen from that watcher. *)
Lemma run_move (f : Stream T -> Watcher T -> option (Stream T * Watcher T))
      (op : Op T) (i : nat) (sys : System T) (w : Watcher T) :
  (forall s, step op s = onWatcher f i s) ->
  nth_error (watchers sys) i = Some w ->
  stream (run [op] sys) = fst (move f (stream sys, w)) /\
  nth_error (watchers (run [op] sys)) i = Some (snd (move f (stream sys, w))).
Proof.
  intros Hop Hi; cbn [run]; rewrite Hop; unfold onWatcher, move; rewrite Hi; cbn [fst snd].
  destruct (f (stream sys) w) as [[s' w']|]; cbn [stream watchers fst snd]; [|auto].
  split; [reflexivity|]; apply nth_error_update_same; congruence.
Qed.

End Delivery.

(** X19: watchers may miss intermediate values but see the last one.  A
    watcher at its [await], on an open stream, after any series of changes
    ending with [v], goes on and yields [v] next, whatever it had seen and
    however many changes it missed. *)
Theorem X19_watcher_sees_the_last_value (T : Type) (v0 : T) (ops : list (Op T))
        (i : nat) (w : Watcher T) (p : nat) (vs : list T) (v : T) :
  nth_error (watchers (run ops (initial v0))) i = Some w ->
  position w = Awaiting p ->
  isClosed (stream (run ops (initial v0))) = false ->
  exists w',
    nth_error (watchers (run (map OpSet (vs ++ [v]) ++ [OpResume i])
                             (run ops (initial v0)))) i = Some w' /\
    seen w' = seen w ++ [v] /\
    get (stream (run (map OpSet (vs ++ [v]) ++ [OpResume i]) (run ops (initial v0)))) = v.
Proof.
  intros Hi Hpos Hopen.
  rewrite run_app, <- (run_app T ops).
  pose proof (consistent_run T (ops ++ map OpSet (vs ++ [v])) _ (consistent_initial T v0))
    as [Hs Hw].
  pose proof (X := run_app T ops (map OpSet (vs ++ [v])) (initial v0)).
  destruct (run_sets T (vs ++ [v]) _ Hopen) as (Hws & Ho & Hv).
  rewrite <- X in Hws, Ho, Hv; rewrite last_last in Hv.
  (* the last change left no promise pending *)
  assert (Hnone : forall q,
             ~ pending (stream (run (ops ++ map OpSet (vs ++ [v])) (initial v0))) q).
  { rewrite map_app, app_assoc, run_app; cbn [map run step].
    pose proof (consistent_run T (ops ++ map OpSet vs) _ (consistent_initial T v0))
      as [Hs1 _].
    unfold set.
    destruct (wakers (stream (run (ops ++ map OpSet vs) (initial v0)))) as [ws|] eqn:Hw1.
    - intros q; unfold pending; cbn [stream promises].
      now apply no_pending_after_wake.
    - intros q Hq; destruct (Hs1 q Hq) as (ws & Hw2 & _); congruence. }
  set (sys := run (ops ++ map OpSet (vs ++ [v])) (initial v0)) in *.
  assert (Hi' : nth_error (watchers sys) i = Some w) by (now rewrite Hws).
  assert (Hwp : wellPlaced (stream sys) w).
  { rewrite Forall_forall in Hw; apply Hw; eapply nth_error_In; eassumption. }
  unfold wellPlaced in Hwp; rewrite Hpos in Hwp; destruct Hwp as (Hin & _ & Htrue).
  destruct (run_move T resume (OpResume i) i sys w (fun s => eq_refl) Hi') as [Hst Hnth].
  exists (snd (move resume (stream sys, w))); split; [exact Hnth|].
  unfold get; rewrite Hst; unfold move, resume; cbn [fst snd]; rewrite Hpos.
  specialize (Hnone p); unfold pending in Hnone.
  destruct (nth_error (promises (stream sys)) p) as [[[]|]|]; try congruence.
  - destruct (Htrue eq_refl); congruence.
  - rewrite loopYield_facts; cbn [fst snd seen].
    destruct (nextChange_facts T (stream sys)) as (_ & Hval & _).
    now rewrite Hval, Hv.
Qed.

Lemma X19_witness :
  exists w',
    nth_error (watchers (run (map OpSet ([2%Z; 3%Z] ++ [4%Z]) ++ [OpResume 0])
                             (run [OpWatch; OpNext 0; OpNext 0] (initial 1%Z)))) 0 = Some w' /\
    seen w' = [1%Z] ++ [4%Z] /\
    get (stream (run (map OpSet ([2%Z; 3%Z] ++ [4%Z]) ++ [OpResume 0])
                     (run [OpWatch; OpNext 0; OpNext 0] (initial 1%Z)))) = 4%Z.
Proof.
  apply (X19_watcher_sees_the_last_value Z 1%Z [OpWatch; OpNext 0; OpNext 0] 0
           {| position := Awaiting 0; seen := [1%Z] |} 0 [2%Z; 3%Z] 4%Z);
    reflexivity.
Defined.

(** X20: a watcher reaches the end of [watch] only on a closed stream, and
    by then the last two values it has yielded are both the final value:
    the value at closing time is always delivered once more. *)
Theorem X20_watcher_ends_on_the_final_value (T : Type) (v0 : T) (ops : list (Op T))
        (i : nat) (w : Watcher T) :
  nth_error (watchers (run ops (initial v0))) i = Some w ->
  position w = AtFinalYield \/ position w = Done ->
  isClosed (stream (run ops (initial v0))) = true /\
  exists init,
    seen w = init ++ [get (stream (run ops (initial v0)));
                      get (stream (run ops (initial v0)))].
Proof.
  intros Hi Hpos.
  pose proof (consistent_run T ops _ (consistent_initial T v0)) as [_ Hw].
  assert (Hwp : wellPlaced (stream (run ops (initial v0))) w).
  { rewrite Forall_forall in Hw; apply Hw; eapply nth_error_In; eassumption. }
  unfold wellPlaced in Hwp; destruct Hpos as [Hpos|Hpos]; rewrite Hpos in Hwp; exact Hwp.
Qed.

Lemma X20_witness :
  isClosed (stream (run [OpWatch; OpNext 0; OpSet 2%Z; OpClose; OpNext 0; OpResume 0;
                         OpNext 0; OpResume 0; OpNext 0]
                        (initial 1%Z))) = true /\
  exists init,
    seen {| position := Done; seen := [1%Z; 2%Z; 2%Z] |} =
    init ++ [get (stream (run [OpWatch; OpNext 0; OpSet 2%Z; OpClose; OpNext 0; OpResume 0;
                               OpNext 0; OpResume 0; OpNext 0]
                              (initial 1%Z)));
             get (stream (run [OpWatch; OpNext 0; OpSet 2%Z; OpClose; OpNext 0; OpResume 0;
                               OpNext 0; OpResume 0; OpNext 0]
                              (initial 1%Z)))].
Proof.
  apply (X20_watcher_ends_on_the_final_value Z 1%Z
           [OpWatch; OpNext 0; OpSet 2%Z; OpClose; OpNext 0; OpResume 0;
            OpNext 0; OpResume 0; OpNext 0]
           0 {| position := Done; seen := [1%Z; 2%Z; 2%Z] |});
    [reflexivity | now right].
Defined.

Section Completion.

Variable T : Type.

Lemma loopYield_closed (s : Stream T) (w : Watcher T) :
  wakers s = None ->
  loopYield s w =
  ({| value := value s; wakers := None; promises := promises s ++ [Some true] |},
   {| position := AtYield (length (promises s)); seen := seen w ++ [value s] |}).
Proof. intros Hw; unfold loopYield, nextChange; now rewrite Hw. Qed.

Lemma nth_error_last (ps : list (option bool)) (x : option bool) :
  nth_error (ps ++ [x]) (length ps) = Some x.
Proof. now rewrite nth_error_snoc, Nat.ltb_irrefl, Nat.eqb_refl. Qed.

(** From its [await] on a promise resolved with [true], a generator
    yields once and is done at the next call. *)
Lemma finish_from_await (s : Stream T) (sn : list T) (p : nat) :
  nth_error (promises s) p = Some (Some true) ->
  move next (move resume (s, {| position := Awaiting p; seen := sn |})) =
  (s, {| position := Done; seen := sn ++ [value s] |}).
Proof. intros Hp; unfold move, resume, next; cbn; now rewrite Hp. Qed.

Lemma stay_done (s : Stream T) (sn : list T) :
  move next (s, {| position := Done; seen := sn |}) = (s, {| position := Done; seen := sn |}) /\
  move resume (s, {| position := Done; seen := sn |}) = (s, {| position := Done; seen := sn |}).
Proof. split; reflexivity. Qed.

(** On a closed stream, the five moves of [drain] bring any generator to
    its end, with at most two more values. *)
Lemma drain_closed (s : Stream T) (w : Watcher T) :
  wakers s = None -> noLostWaker s -> wellPlaced s w ->
  exists s' sn,
    move next (move resume (move next (move resume (move next (s, w))))) =
      (s', {| position := Done; seen := sn |}) /\
    length sn <= length (seen w) + 2.
Proof.
  intros Hw Hs Hwp; destruct w as [pos sn]; unfold wellPlaced in Hwp; cbn [position seen] in *.
  assert (Hsettled : forall p, nth_error (promises s) p <> None ->
                               exists b, nth_error (promises s) p = Some (Some b)).
  { intros p Hin; destruct (nth_error (promises s) p) as [[b|]|] eqn:Hp; eauto.
    - destruct (Hs p Hp) as (ws & Hws & _); congruence.
    - congruence. }
  assert (Hloop : forall sn0,
             exists s',
               move next (move resume (move next
                 (loopYield s {| position := Awaiting 0; seen := sn0 |}))) =
               (s', {| position := Done; seen := (sn0 ++ [value s]) ++ [value s] |})).
  { intros sn0; rewrite loopYield_closed by exact Hw; cbn [seen].
    eexists.
    change (move next (_, {| position := AtYield ?p; seen := ?l |}))
      with (({| value := value s; wakers := None; promises := promises s ++ [Some true] |}),
            {| position := Awaiting p; seen := l |}).
    rewrite finish_from_await by apply nth_error_last; reflexivity. }
  destruct pos as [|p|p| |].
  - (* not started *)
    destruct (Hloop sn) as (s' & Hl).
    exists s', ((sn ++ [value s]) ++ [value s]); split.
    + change (move next (s, {| position := Start; seen := sn |}))
        with (loopYield s {| position := Start; seen := sn |}).
      rewrite loopYield_closed in * by exact Hw; cbn [seen] in *.
      change (move resume (?x, {| position := AtYield ?q; seen := ?l |}))
        with (x, {| position := AtYield q; seen := l |}).
      change (move next (?x, {| position := AtYield ?q; seen := ?l |}))
        with (x, {| position := Awaiting q; seen := l |}) in *.
      exact Hl.
    + rewrite !length_app; cbn; lia.
  - (* suspended at the yield of the loop *)
    destruct Hwp as (Hin & _); destruct (Hsettled p Hin) as ([] & Hp).
    + exists s, (sn ++ [value s]); split; [|rewrite length_app; cbn; lia].
      change (move next (s, {| position := AtYield p; seen := sn |}))
        with (s, {| position := Awaiting p; seen := sn |}).
      rewrite finish_from_await by exact Hp.
      now rewrite (proj2 (stay_done s _)), (proj1 (stay_done s _)).
    + destruct (Hloop sn) as (s' & Hl).
      exists s', ((sn ++ [value s]) ++ [value s]); split;
        [|rewrite !length_app; cbn; lia].
      change (move next (s, {| position := AtYield p; seen := sn |}))
        with (s, {| position := Awaiting p; seen := sn |}).
      replace (move resume (s, {| position := Awaiting p; seen := sn |}))
        with (loopYield s {| position := Awaiting p; seen := sn |})
        by (unfold move, resume; cbn; now rewrite Hp).
      rewrite loopYield_closed in * by exact Hw; exact Hl.
  - (* awaiting *)
    destruct Hwp as (Hin & _); destruct (Hsettled p Hin) as ([] & Hp).
    + exists s, (sn ++ [value s]); split; [|rewrite length_app; cbn; lia].
      change (move next (s, {| position := Awaiting p; seen := sn |}))
        with (s, {| position := Awaiting p; seen := sn |}).
      rewrite finish_from_await by exact Hp.
      now rewrite (proj2 (stay_done s _)), (proj1 (stay_done s _)).
    + destruct (Hloop sn) as (s' & Hl).
      exists s', ((sn ++ [value s]) ++ [value s]); split;
        [|rewrite !length_app; cbn; lia].
      change (move next (s, {| position := Awaiting p; seen := sn |}))
        with (s, {| position := Awaiting p; seen := sn |}).
      replace (move resume (s, {| position := Awaiting p; seen := sn |}))
        with (loopYield s {| position := Awaiting p; seen := sn |})
        by (unfold move, resume; cbn; now rewrite Hp).
      rewrite loopYield_closed in * by exact Hw; exact Hl.
  - exists s, sn; split; [reflexivity | lia].
  - exists s, sn; split; [reflexivity | lia].
Qed.

End Completion.

Lemma run_move_pair (T : Type) (f : Stream T -> Watcher T -> option (Stream T * Watcher T))
      (op : Op T) (rest : list (Op T)) (i : nat) (sys : System T) (w : Watcher T) :
  (forall s, step op s = onWatcher f i s) ->
  nth_error (watchers sys) i = Some w ->
  exists sys1 w1,
    run (op :: rest) sys = run rest sys1 /\
    nth_error (watchers sys1) i = Some w1 /\
    (stream sys1, w1) = move f (stream sys, w).
Proof.
  intros Hop Hi.
  destruct (run_move T f op i sys w Hop Hi) as [Hs Hn].
  exists (run [op] sys), (snd (move f (stream sys, w))); split; [reflexivity|].
  split; [exact Hn|]; rewrite Hs; now destruct (move f (stream sys, w)).
Qed.

(** X21: closing a stream ends its watchers.  In any reachable state with
    the stream closed, a watcher that keeps asking receives at most two
    more values and is then done. *)
Theorem X21_closed_stream_ends_watchers (T : Type) (v0 : T) (ops : list (Op T))
        (i : nat) (w : Watcher T) :
  nth_error (watchers (run ops (initial v0))) i = Some w ->
  isClosed (stream (run ops (initial v0))) = true ->
  exists w',
    nth_error (watchers (run (drain i) (run ops (initial v0)))) i = Some w' /\
    position w' = Done /\
    length (seen w') <= length (seen w) + 2.
Proof.
  intros Hi Hc.
  pose proof (consistent_run T ops _ (consistent_initial T v0)) as [Hs Hw].
  assert (Hwp : wellPlaced (stream (run ops (initial v0))) w).
  { rewrite Forall_forall in Hw; apply Hw; eapply nth_error_In; eassumption. }
  assert (Hnull : wakers (stream (run ops (initial v0))) = None).
  { unfold isClosed in Hc; destruct (wakers (stream (run ops (initial v0))));
      [discriminate | reflexivity]. }
  destruct (drain_closed T _ w Hnull Hs Hwp) as (s' & sn & Hdrain & Hlen).
  unfold drain.
  destruct (run_move_pair T next (OpNext i) [OpResume i; OpNext i; OpResume i; OpNext i]
              i _ w (fun s => eq_refl) Hi) as (sys1 & w1 & -> & H1 & E1).
  destruct (run_move_pair T resume (OpResume i) [OpNext i; OpResume i; OpNext i]
              i sys1 w1 (fun s => eq_refl) H1) as (sys2 & w2 & -> & H2 & E2).
  destruct (run_move_pair T next (OpNext i) [OpResume i; OpNext i]
              i sys2 w2 (fun s => eq_refl) H2) as (sys3 & w3 & -> & H3 & E3).
  destruct (run_move_pair T resume (OpResume i) [OpNext i]
              i sys3 w3 (fun s => eq_refl) H3) as (sys4 & w4 & -> & H4 & E4).
  destruct (run_move_pair T next (OpNext i) []
              i sys4 w4 (fun s => eq_refl) H4) as (sys5 & w5 & -> & H5 & E5).
  rewrite E4, E3, E2, E1, Hdrain in E5; injection E5 as _ ->.
  exists {| position := Done; seen := sn |}; cbn [run]; auto.
Qed.

Lemma X21_witness :
  exists w',
    nth_error (watchers (run (drain 0)
                             (run [OpWatch; OpNext 0; OpSet 2%Z; OpClose] (initial 1%Z)))) 0
      = Some w' /\
    position w' = Done /\
    length (seen w') <= length [1%Z] + 2.
Proof.
  apply (X21_closed_stream_ends_watchers Z 1%Z [OpWatch; OpNext 0; OpSet 2%Z; OpClose] 0
           {| position := AtYield 0; seen := [1%Z] |});
    reflexivity.
Defined.

(** ** Runs of the stream *)

Example watcher_sees_closing_value_twice :
  map (@seen Z)
      (watchers (run ([OpWatch; OpNext 0; OpSet 2%Z; OpSet 3%Z; OpClose] ++ drain 0)
                     (initial 1%Z)))
  = [[1%Z; 3%Z; 3%Z]].
Proof. reflexivity. Qed.

Example two_watchers_one_change :
  map (@seen Z)
      (watchers (run [OpWatch; OpWatch; OpNext 0; OpNext 1; OpNext 0; OpNext 1;
                      OpSet 5%Z; OpResume 0; OpResume 1]
                     (initial 1%Z)))
  = [[1%Z; 5%Z]; [1%Z; 5%Z]].
Proof. reflexivity. Qed.
